(** * VAMDC portal: node discovery and fan-out query engine

    A shallow embedding of [services/registry.ts] (static and live
    strategies) and [services/nodes.ts] (query encoder, node prober and
    fan-out coordinator), followed by the properties established about
    them.

    Conventions of the embedding.
    - A JavaScript string is represented by the bytes of its UTF-8
      encoding, as a [string].  Every well-formed string has exactly one
      such representation; ['/'] and [' '] are single bytes that never
      occur inside a multi-byte sequence, so [split(' ')] and
      [endsWith('/')] read the same on bytes as on UTF-16 code units.
    - An awaited promise is represented by its settlement: a value of
      [result], [Ok v] for fulfilment and [Throw e] for rejection.
    - Concurrency is represented by a schedule, the order in which the
      pending probes settle. *)

From Stdlib Require Import ZArith NArith List String Ascii Bool Lia.
From Stdlib Require Import DecimalString DecimalNat DecimalN DecimalZ.
From Stdlib Require Import Permutation.
From stdpp Require Import base tactics option list.

Import ListNotations.
Local Open Scope list_scope.
Local Open Scope string_scope.

(** ** Strings *)

Module Str.

Fixpoint endsWith_char (s : string) (c : ascii) : bool :=
  match s with
  | EmptyString => false
  | String a EmptyString => Ascii.eqb a c
  | String _ rest => endsWith_char rest c
  end.

(** [truthy s]: a string is falsy exactly when it is empty. *)
Definition truthy (s : string) : bool :=
  match s with
  | EmptyString => false
  | String _ _ => true
  end.

(** [split_at c s]: the pieces of [s.split(c)] for a one-character
    separator.  The result always has at least one piece. *)
Fixpoint split_at (c : ascii) (s : string) : list string :=
  match s with
  | EmptyString => [EmptyString]
  | String a rest =>
      if Ascii.eqb a c then EmptyString :: split_at c rest
      else match split_at c rest with
           | [] => [String a EmptyString]
           | p :: ps => String a p :: ps
           end
  end.

Definition of_nat (n : nat) : string :=
  NilZero.string_of_uint (Nat.to_uint n).

Definition of_N (n : N) : string :=
  NilZero.string_of_uint (N.to_uint n).

Definition of_Z (z : Z) : string :=
  NilZero.string_of_int (Z.to_int z).

Definition lower_char (c : ascii) : ascii :=
  let n := nat_of_ascii c in
  if (65 <=? n)%nat && (n <=? 90)%nat then ascii_of_nat (n + 32) else c.

Fixpoint lower (s : string) : string :=
  match s with
  | EmptyString => EmptyString
  | String a rest => String (lower_char a) (lower rest)
  end.

Fixpoint join (sep : string) (l : list string) : string :=
  match l with
  | [] => EmptyString
  | [x] => x
  | x :: rest => x ++ sep ++ join sep rest
  end.

End Str.

(** ** Types ([types/vamdc.ts]) *)

Record VamdcNode := mkNode {
  id : string;
  name : string;
  tapEndpoint : string
}.

Module Status.
Inductive t := pending | success | error | timeout.
End Status.

(** The value of a statistics field: the result of [parseInt(_, 10)] or
    the literal [0].  [Int z] is the integer the digits denote; for
    [z] of magnitude up to 2^53 that integer is itself the Number
    [parseInt] returns (with [-0] read as 0).  Beyond 2^53 [parseInt]
    returns a Number near [z], [Infinity] from 2^1024 on, which [Int z]
    does not tell: what is stated of a count is stated up to 2^53. *)
Inductive number := NaN | Int (z : Z).

Record NodeResponse := mkResponse {
  nodeId : string;
  nodeName : string;
  status : Status.t;
  numSpecies : option number;
  numStates : option number;
  numTransitions : option number;
  downloadUrl : option string;
  error : option string
}.

(** The numeric type of [QueryParams] is kept abstract: the code only
    ever renders a parameter into a template literal, so all it needs of
    a Number is its [ToString]. *)
Class NumberToString (num : Type) := toString : num -> string.

(** Integers of magnitude up to 2^53, each of which is a Number: their
    [ToString] is the plain decimal numeral, with a leading [-] when
    negative.  (Beyond 2^53 a Number prints the shortest digits that
    read back as itself, and from 10^21 on in exponent form.) *)
#[export] Instance Z_NumberToString : NumberToString Z := Str.of_Z.

Record QueryParams (num : Type) := mkParams {
  wavelengthMin : num;
  wavelengthMax : num
}.
Arguments mkParams {num} _ _.
Arguments wavelengthMin {num} _.
Arguments wavelengthMax {num} _.

(** ** Settlement of awaited promises *)

(** What a [catch] clause can receive: an [Error] (or an instance of a
    subclass, [DOMException] included) with its [name] and [message], or
    any other thrown value. *)
Inductive Thrown :=
| ThrownError (ename emessage : string)
| ThrownOther.

Inductive result (A : Type) :=
| Ok (v : A)
| Throw (e : Thrown).
Arguments Ok {A} _.
Arguments Throw {A} _.

#[export] Instance result_ret : MRet result := fun A v => Ok v.

#[export] Instance result_bind : MBind result := fun A B k m =>
  match m with
  | Ok v => k v
  | Throw e => Throw e
  end.

Definition try_catch {A} (body : result A) (handler : Thrown -> result A)
  : result A :=
  match body with
  | Ok v => Ok v
  | Throw e => handler e
  end.

(** ** Query encoder ([services/nodes.ts]) *)

Module Encoder.

Definition in_range (lo hi : nat) (c : ascii) : bool :=
  let n := nat_of_ascii c in (lo <=? n)%nat && (n <=? hi)%nat.

Fixpoint mem_char (c : ascii) (s : string) : bool :=
  match s with
  | EmptyString => false
  | String a rest => Ascii.eqb a c || mem_char c rest
  end.

(** The characters [encodeURIComponent] leaves alone: ASCII letters,
    digits and the marks [- _ . ! ~ * ' ( )]. *)
Definition uri_unreserved (c : ascii) : bool :=
  in_range 65 90 c || in_range 97 122 c || in_range 48 57 c
  || mem_char c "-_.!~*'()".

Definition hex_digit (n : nat) : ascii :=
  match get n "0123456789ABCDEF" with
  | Some c => c
  | None => "0"%char
  end.

Definition percent (c : ascii) : string :=
  let n := nat_of_ascii c in
  String "%" (String (hex_digit (n / 16)) (String (hex_digit (n mod 16)) "")).

(** [encodeURIComponent] on the UTF-8 representation: every byte that
    is not an unreserved ASCII character becomes [%XX].  The one input
    on which the JavaScript function throws, a lone surrogate, has no
    UTF-8 representation. *)
Fixpoint encodeURIComponent (s : string) : string :=
  match s with
  | EmptyString => EmptyString
  | String c rest =>
      if uri_unreserved c then String c (encodeURIComponent rest)
      else percent c ++ encodeURIComponent rest
  end.

Definition buildQueryString {num} `{NumberToString num}
    (params : QueryParams num) : string :=
  "SELECT * WHERE RadTransWavelength >= " ++ toString (wavelengthMin params)
  ++ " AND RadTransWavelength <= " ++ toString (wavelengthMax params).

Definition buildDownloadUrl (tapEndpoint queryString : string) : string :=
  let encoded := encodeURIComponent queryString in
  tapEndpoint ++ "sync?LANG=VSS2&REQUEST=doQuery&FORMAT=XSAMS&QUERY=" ++ encoded.

End Encoder.

(** ** The Fetch API, as far as the services use it *)

Module Fetch.

(** A header list.  Values are stored normalized, as [Headers] keeps
    them. *)
Definition Headers := list (string * string).

Definition name_matches (name : string) (kv : string * string) : bool :=
  String.eqb (Str.lower (fst kv)) (Str.lower name).

(** [headers.get(name)]: names compare case-insensitively, the values
    of a repeated header are joined by [", "], and an absent header
    gives [null]. *)
Definition get (h : Headers) (name : string) : option string :=
  match List.filter (name_matches name) h with
  | [] => None
  | kvs => Some (Str.join ", " (List.map snd kvs))
  end.

(** A response whose body, read by the method the caller uses, settles
    as [body]. *)
Record Response (B : Type) := mkResponse {
  status : N;
  statusText : string;
  headers : Headers;
  body : result B
}.
Arguments mkResponse {B} _ _ _ _.
Arguments status {B} _.
Arguments statusText {B} _.
Arguments headers {B} _.
Arguments body {B} _.

(** [response.ok]: the status is in the range 200 to 299. *)
Definition ok {B} (r : Response B) : bool :=
  (200 <=? status r)%N && (status r <=? 299)%N.

(** An [AbortSignal], seen from the request it is attached to: either
    it is not aborted before the request settles, or it is aborted
    with a reason. *)
Inductive AbortSignal :=
| NotAborted
| Aborted (reason : Thrown).

(** The reason set by [controller.abort()] called without argument: a
    [DOMException] named [AbortError]. *)
Definition abort_error : Thrown :=
  ThrownError "AbortError" "signal is aborted without reason".

(** [fetch(url, { signal, ... })]: rejects with the signal's reason
    when the signal aborts first, and otherwise settles as the network
    does for that URL. *)
Definition fetch {B} (network : string -> result (Response B))
    (url : string) (signal : AbortSignal) : result (Response B) :=
  match signal with
  | Aborted reason => Throw reason
  | NotAborted => network url
  end.

End Fetch.

(** ** [parseInt(string, 10)] *)

Module ParseInt.

Definition byte_is (c : ascii) (n : nat) : bool := (nat_of_ascii c =? n)%nat.

(** White space of one, two and three UTF-8 bytes: TAB, LF, VT, FF, CR
    and SP; U+00A0; U+1680, U+2000 to U+200A, U+2028, U+2029, U+202F,
    U+205F, U+3000 and U+FEFF. *)
Definition ws1 (c1 : ascii) : bool :=
  let n := nat_of_ascii c1 in
  ((9 <=? n)%nat && (n <=? 13)%nat) || (n =? 32)%nat.

Definition ws2 (c1 c2 : ascii) : bool :=
  byte_is c1 194 && byte_is c2 160.

Definition ws3 (c1 c2 c3 : ascii) : bool :=
  let n3 := nat_of_ascii c3 in
  (byte_is c1 225 && byte_is c2 154 && byte_is c3 128)
  || (byte_is c1 226 && byte_is c2 128
      && (((128 <=? n3)%nat && (n3 <=? 138)%nat)
          || (n3 =? 168)%nat || (n3 =? 169)%nat || (n3 =? 175)%nat))
  || (byte_is c1 226 && byte_is c2 129 && byte_is c3 159)
  || (byte_is c1 227 && byte_is c2 128 && byte_is c3 128)
  || (byte_is c1 239 && byte_is c2 187 && byte_is c3 191).

Fixpoint trimStart (s : string) : string :=
  match s with
  | String c1 r1 =>
      if ws1 c1 then trimStart r1
      else match r1 with
           | String c2 r2 =>
               if ws2 c1 c2 then trimStart r2
               else match r2 with
                    | String c3 r3 =>
                        if ws3 c1 c2 c3 then trimStart r3 else s
                    | EmptyString => s
                    end
           | EmptyString => s
           end
  | EmptyString => s
  end.

Definition digit_value (c : ascii) : option Z :=
  let n := nat_of_ascii c in
  if (48 <=? n)%nat && (n <=? 57)%nat then Some (Z.of_nat (n - 48)) else None.

(** The value of the longest prefix of decimal digits, [None] when
    that prefix is empty. *)
Fixpoint digits (s : string) (acc : option Z) : option Z :=
  match s with
  | EmptyString => acc
  | String c rest =>
      match digit_value c with
      | Some d =>
          digits rest (Some (10 * (match acc with Some a => a | None => 0 end) + d)%Z)
      | None => acc
      end
  end.

Definition parseInt (s : string) : number :=
  let trimmed := trimStart s in
  let '(sign, rest) :=
    match trimmed with
    | String "-" r => ((-1)%Z, r)
    | String "+" r => (1%Z, r)
    | _ => (1%Z, trimmed)
    end in
  match digits rest None with
  | None => NaN
  | Some m => Int (sign * m)
  end.

End ParseInt.

(** ** Node prober ([services/nodes.ts]) *)

Module Prober.
Import Encoder.

(** The closure [getHeader] of [queryNode], with the headers of the
    response it captures as an argument. *)
Definition getHeader (h : Fetch.Headers) (name : string) : number :=
  match Fetch.get h name with
  | Some value => if Str.truthy value then ParseInt.parseInt value else Int 0
  | None => Int 0
  end.

Definition queryNode {num} `{NumberToString num}
    (network : string -> result (Fetch.Response unit))
    (node : VamdcNode) (params : QueryParams num)
    (signal : Fetch.AbortSignal) : result NodeResponse :=
  let queryString := buildQueryString params in
  let url := buildDownloadUrl (tapEndpoint node) queryString in
  try_catch
    (response ← Fetch.fetch network url signal;
     if negb (Fetch.ok response) then
       mret {| nodeId := id node;
               nodeName := name node;
               status := Status.error;
               numSpecies := None; numStates := None; numTransitions := None;
               downloadUrl := None;
               error := Some ("HTTP " ++ Str.of_N (Fetch.status response)) |}
     else
       let numSpecies_ := getHeader (Fetch.headers response) "VAMDC-COUNT-SPECIES" in
       let numStates_ := getHeader (Fetch.headers response) "VAMDC-COUNT-STATES" in
       let numTransitions_ := getHeader (Fetch.headers response) "VAMDC-COUNT-RADIATIVE" in
       mret {| nodeId := id node;
               nodeName := name node;
               status := Status.success;
               numSpecies := Some numSpecies_;
               numStates := Some numStates_;
               numTransitions := Some numTransitions_;
               downloadUrl := Some url;
               error := None |})
    (fun err =>
       match err with
       | ThrownError ename emessage =>
           if String.eqb ename "AbortError" then
             mret {| nodeId := id node;
                     nodeName := name node;
                     status := Status.timeout;
                     numSpecies := None; numStates := None; numTransitions := None;
                     downloadUrl := None;
                     error := Some "Request timeout" |}
           else
             mret {| nodeId := id node;
                     nodeName := name node;
                     status := Status.error;
                     numSpecies := None; numStates := None; numTransitions := None;
                     downloadUrl := None;
                     error := Some emessage |}
       | ThrownOther =>
           mret {| nodeId := id node;
                   nodeName := name node;
                   status := Status.error;
                   numSpecies := None; numStates := None; numTransitions := None;
                   downloadUrl := None;
                   error := Some "Unknown error" |}
       end).

End Prober.

(** ** The DOM, as far as the resolver uses it *)

Module Dom.

#[warnings="-register-all"]
Inductive Node :=
| Text (data : string)
| Comment (data : string)
| Element (localName : string) (childNodes : list Node).

(** A [Document] is given by its children: the root element, and the
    comments around it. *)
Definition Document := list Node.

Definition children (n : Node) : list Node :=
  match n with
  | Element _ kids => kids
  | _ => []
  end.

(** [textContent] of an element: the data of its descendant text
    nodes, in document order. *)
Fixpoint textContent (n : Node) : string :=
  match n with
  | Text data => data
  | Comment _ => EmptyString
  | Element _ kids =>
      List.fold_right (fun k acc => textContent k ++ acc) EmptyString kids
  end.

(** The element [n], if it is one, followed by its descendant elements
    in document order. *)
Fixpoint elements (n : Node) : list Node :=
  match n with
  | Element _ kids => n :: List.flat_map elements kids
  | _ => []
  end.

Definition is_named (sel : string) (n : Node) : bool :=
  match n with
  | Element localName _ => String.eqb localName sel
  | _ => false
  end.

(** [querySelectorAll] and [querySelector] for a type selector, on the
    children of the node they are called on. *)
Definition querySelectorAll (sel : string) (kids : list Node) : list Node :=
  List.filter (is_named sel) (List.flat_map elements kids).

Definition querySelector (sel : string) (kids : list Node) : option Node :=
  List.head (querySelectorAll sel kids).

End Dom.

(** ** Node directory resolver, live strategy *)

Module RegistryLive.

(** [a || d] for a string [a] that may be [undefined]. *)
Definition or_else (a : option string) (d : string) : string :=
  match a with
  | Some s => if Str.truthy s then s else d
  | None => d
  end.

(** [a ?? d]. *)
Definition nullish (a : option string) (d : string) : string :=
  match a with
  | Some s => s
  | None => d
  end.

(** The body of the [forEach] callback: [nodes] is the array the
    callback pushes to. *)
Definition visit (el : Dom.Node) (index : nat) (nodes : list VamdcNode)
  : list VamdcNode :=
  let title :=
    or_else (option_map Dom.textContent
               (Dom.querySelector "title" (Dom.children el))) "Unknown" in
  let url :=
    or_else (option_map Dom.textContent
               (Dom.querySelector "url" (Dom.children el))) "" in
  let url := nullish (List.head (Str.split_at " " url)) "" in
  let url :=
    if Str.truthy url && negb (Str.endsWith_char url "/") then url ++ "/"
    else url in
  if Str.truthy url then
    (nodes ++ [ {| id := "node-" ++ Str.of_nat index;
                   name := title;
                   tapEndpoint := url |} ])%list
  else nodes.

Fixpoint forEach (els : list Dom.Node) (index : nat) (nodes : list VamdcNode)
  : list VamdcNode :=
  match els with
  | [] => nodes
  | el :: rest => forEach rest (S index) (visit el index nodes)
  end.

(** [parseNodesXml], from the document [DOMParser] returns. *)
Definition parseNodesXml (doc : Dom.Document) : list VamdcNode :=
  let nodeElements := Dom.querySelectorAll "node" doc in
  forEach nodeElements 0 [].

(** [fetchNodes]: [fetched] is the settlement of the POST to the
    registry, [parseFromString] is [DOMParser] on ['text/xml']. *)
Definition fetchNodes (parseFromString : string -> Dom.Document)
    (fetched : result (Fetch.Response string)) : result (list VamdcNode) :=
  response ← fetched;
  if negb (Fetch.ok response) then
    Throw (ThrownError "Error"
             ("Registry fetch failed: " ++ Fetch.statusText response))
  else
    xmlText ← Fetch.body response;
    mret (parseNodesXml (parseFromString xmlText)).

End RegistryLive.

(** ** Node directory resolver, static strategy ([services/registry.ts]) *)

Module Registry.

(** [fetchNodes]: [fetched] is the settlement of the GET of
    [nodes.json]; its body is read by [response.json()] at the
    declared type [VamdcNode[]]. *)
Definition fetchNodes (fetched : result (Fetch.Response (list VamdcNode)))
  : result (list VamdcNode) :=
  response ← fetched;
  if negb (Fetch.ok response) then
    Throw (ThrownError "Error"
             ("Failed to load nodes: " ++ Fetch.statusText response))
  else Fetch.body response.

End Registry.

(** ** Fan-out coordinator ([services/nodes.ts]) *)

Module Coordinator.
Import Prober.

(** What the surroundings do to the probe of one node: whether the
    30 second timer fires before the request settles, and how the
    network settles the request otherwise. *)
Record Probe := mkProbe {
  timer_fires : bool;
  network : string -> result (Fetch.Response unit)
}.

(** The signal of the task's [AbortController]: the timer's callback
    is [controller.abort()]. *)
Definition signal_of (p : Probe) : Fetch.AbortSignal :=
  if timer_fires p then Fetch.Aborted Fetch.abort_error else Fetch.NotAborted.

Inductive Promise (A : Type) :=
| Pending
| Fulfilled (v : A)
| Rejected (e : Thrown).
Arguments Pending {A}.
Arguments Fulfilled {A} _.
Arguments Rejected {A} _.

(** [Promise.all] fulfils once no slot of its array of values is
    empty. *)
Fixpoint collect {A} (vals : list (option A)) : option (list A) :=
  match vals with
  | [] => Some []
  | Some v :: rest => option_map (cons v) (collect rest)
  | None :: _ => None
  end.

Section FanOut.
Context {num : Type} `{NumberToString num} {Sink : Type}.
Variable nodes : list VamdcNode.
Variable params : QueryParams num.

(** The progress sink: a call changes the caller's state and may
    throw.  The sink here reads the result it is handed and does not
    write to it; module [Shared] below has the sink that may. *)
Variable onProgress : Sink -> NodeResponse -> Sink * option Thrown.
Variable probes : nat -> Probe.

Record State := mkState {
  promises : list (Promise NodeResponse);
  sink : Sink;
  calls : list NodeResponse;
  values : list (option NodeResponse);
  all : Promise (list NodeResponse)
}.

(** The async arrow function from the point where [queryNode]
    settles: the settlement of its promise, the sink's state and the
    calls made to the sink.  [clearTimeout(timer)] leaves no trace:
    the timer has fired already or is never going to. *)
Definition task (node : VamdcNode) (p : Probe) (s : Sink)
  : result NodeResponse * Sink * list NodeResponse :=
  match queryNode (network p) node params (signal_of p) with
  | Throw e => (Throw e, s, [])
  | Ok response =>
      let '(s', thrown) := onProgress s response in
      match thrown with
      | Some e => (Throw e, s', [response])
      | None => (Ok response, s', [response])
      end
  end.

(** The probe of node [i] settles and its task runs to its end.  A
    promise settles once: nothing happens for a task that is not
    pending. *)
Definition settle (st : State) (i : nat) : State :=
  match promises st !! i, nodes !! i with
  | Some Pending, Some node =>
      let '(outcome, s', made) := task node (probes i) (sink st) in
      match outcome with
      | Ok response =>
          let vals := <[i := Some response]> (values st) in
          {| promises := <[i := Fulfilled response]> (promises st);
             sink := s';
             calls := (calls st ++ made)%list;
             values := vals;
             all := match all st, collect vals with
                    | Pending, Some rs => Fulfilled rs
                    | a, _ => a
                    end |}
      | Throw e =>
          {| promises := <[i := Rejected e]> (promises st);
             sink := s';
             calls := (calls st ++ made)%list;
             values := values st;
             all := match all st with
                    | Pending => Rejected e
                    | a => a
                    end |}
      end
  | _, _ => st
  end.

(** The state when [queryAllNodes] returns its promise: every task
    is suspended at its [await]. *)
Definition start (s0 : Sink) : State :=
  let vals := replicate (length nodes) None in
  {| promises := replicate (length nodes) Pending;
     sink := s0;
     calls := [];
     values := vals;
     all := match collect vals with
            | Some rs => Fulfilled rs
            | None => Pending
            end |}.

(** [queryAllNodes] under a schedule: the probes settle in the order
    [schedule] lists their indices.  [all] of the final state is the
    promise the caller awaits. *)
Definition queryAllNodes (s0 : Sink) (schedule : list nat) : State :=
  List.fold_left settle schedule (start s0).

End FanOut.

Arguments promises {Sink} _.
Arguments sink {Sink} _.
Arguments calls {Sink} _.
Arguments values {Sink} _.
Arguments all {Sink} _.

End Coordinator.

(** ** Notions used to state the properties *)

Module Spec.

(** The text of a record's [url] element and of its [title] element,
    empty when the element is missing. *)
Definition url_text (el : Dom.Node) : string :=
  match Dom.querySelector "url" (Dom.children el) with
  | Some u => Dom.textContent u
  | None => EmptyString
  end.

Definition title_text (el : Dom.Node) : string :=
  match Dom.querySelector "title" (Dom.children el) with
  | Some t => Dom.textContent t
  | None => EmptyString
  end.

(** The candidate URLs of a record as the specification words them:
    the non-empty pieces of the text between white space (TAB, LF, VT,
    FF, CR, SP). *)
Fixpoint words_from (s cur : string) : list string :=
  match s with
  | EmptyString => if Str.truthy cur then [cur] else []
  | String c rest =>
      if ParseInt.ws1 c then
        (if Str.truthy cur then cur :: words_from rest EmptyString
         else words_from rest EmptyString)
      else words_from rest (cur ++ String c EmptyString)
  end.

Definition candidate_urls (el : Dom.Node) : list string :=
  words_from (url_text el) EmptyString.

(** The text that precedes the first U+0020. *)
Fixpoint before_space (s : string) : string :=
  match s with
  | EmptyString => EmptyString
  | String c rest =>
      if Ascii.eqb c " " then EmptyString else String c (before_space rest)
  end.

Definition with_slash (u : string) : string :=
  if Str.endsWith_char u "/" then u else u ++ "/".

(** The node a record gives, if any: its URL is the text before the
    first space, when that text is not empty. *)
Definition record_node (index : nat) (el : Dom.Node) : list VamdcNode :=
  let u := before_space (url_text el) in
  if Str.truthy u then
    [ {| id := "node-" ++ Str.of_nat index;
         name := if Str.truthy (title_text el) then title_text el else "Unknown";
         tapEndpoint := with_slash u |} ]
  else [].

Fixpoint records_from (index : nat) (els : list Dom.Node) : list VamdcNode :=
  match els with
  | [] => []
  | el :: rest => (record_node index el ++ records_from (S index) rest)%list
  end.

(** An absolute URL starts with a scheme and a colon (RFC 3986):
    a letter, then letters, digits, [+], [-] and [.]. *)
Definition is_alpha (c : ascii) : bool :=
  Encoder.in_range 65 90 c || Encoder.in_range 97 122 c.

Fixpoint scheme_tail (s : string) : bool :=
  match s with
  | EmptyString => false
  | String c rest =>
      if Ascii.eqb c ":" then true
      else if is_alpha c || Encoder.in_range 48 57 c || Encoder.mem_char c "+-."
           then scheme_tail rest
           else false
  end.

Definition absolute (u : string) : bool :=
  match u with
  | EmptyString => false
  | String c rest => is_alpha c && scheme_tail rest
  end.

Definition endpoint_ok (n : VamdcNode) : Prop :=
  absolute (tapEndpoint n) = true /\ Str.endsWith_char (tapEndpoint n) "/" = true.

(** A header value that is a non-negative decimal integer. *)
Fixpoint all_digits (s : string) : bool :=
  match s with
  | EmptyString => true
  | String c rest => Encoder.in_range 48 57 c && all_digits rest
  end.

Definition numeric (v : string) : bool := Str.truthy v && all_digits v.

(** The URL a probe of [node] requests. *)
Definition probe_url {num} `{NumberToString num}
    (node : VamdcNode) (params : QueryParams num) : string :=
  Encoder.buildDownloadUrl (tapEndpoint node) (Encoder.buildQueryString params).

(** The results without statistics. *)
Definition timeout_response (node : VamdcNode) : NodeResponse :=
  {| nodeId := id node; nodeName := name node; status := Status.timeout;
     numSpecies := None; numStates := None; numTransitions := None;
     downloadUrl := None; error := Some "Request timeout" |}.

Definition error_response (node : VamdcNode) (text : string) : NodeResponse :=
  {| nodeId := id node; nodeName := name node; status := Status.error;
     numSpecies := None; numStates := None; numTransitions := None;
     downloadUrl := None; error := Some text |}.

(** No header of [h] has the name [name], case put aside. *)
Definition absent (h : Fetch.Headers) (name : string) : Prop :=
  Forall (fun kv => Str.lower (fst kv) <> Str.lower name) h.

(** How the statistic [x] follows from the header [name] of [h]. *)
Definition statistic_rule (h : Fetch.Headers) (name : string) (x : number)
  : Prop :=
  (absent h name -> x = Int 0)
  /\ (Fetch.get h name = Some EmptyString -> x = Int 0)
  /\ (forall v, Fetch.get h name = Some v -> v <> EmptyString ->
       x = ParseInt.parseInt v)
  /\ (forall c rest, Fetch.get h name = Some (String c rest) ->
       is_alpha c = true -> x = NaN).

(** The result of the probe of [node], under what the surroundings do
    to it.  [queryNode] never throws, so the second case never
    applies. *)
Definition probe_result {num} `{NumberToString num}
    (params : QueryParams num) (node : VamdcNode) (p : Coordinator.Probe)
  : NodeResponse :=
  match Prober.queryNode (Coordinator.network p) node params
          (Coordinator.signal_of p) with
  | Ok r => r
  | Throw _ => error_response node "Unknown error"
  end.

(** The result of the probe of the node at index [i]. *)
Definition result_at {num} `{NumberToString num}
    (nodes : list VamdcNode) (params : QueryParams num)
    (probes : nat -> Coordinator.Probe) (i : nat) : option NodeResponse :=
  (fun node => probe_result params node (probes i)) <$> nodes !! i.

(** The results of all probes, in the order of [nodes]. *)
Definition results {num} `{NumberToString num}
    (nodes : list VamdcNode) (params : QueryParams num)
    (probes : nat -> Coordinator.Probe) : list NodeResponse :=
  imap (fun i node => probe_result params node (probes i)) nodes.

Definition sink_never_throws {Sink : Type}
    (onProgress : Sink -> NodeResponse -> Sink * option Thrown) : Prop :=
  forall s r, snd (onProgress s r) = None.

(** The state of a round in which the probes listed in [settled] have
    settled, in that order, and the others are pending. *)
Definition round_state {num} `{NumberToString num} {Sink : Type}
    (nodes : list VamdcNode) (params : QueryParams num)
    (probes : nat -> Coordinator.Probe) (settled : list nat)
    (st : Coordinator.State (Sink := Sink)) : Prop :=
  length (Coordinator.promises st) = length nodes
  /\ length (Coordinator.values st) = length nodes
  /\ (forall i node, nodes !! i = Some node ->
       Coordinator.promises st !! i
       = Some (if bool_decide (i ∈ settled)
               then Coordinator.Fulfilled (probe_result params node (probes i))
               else Coordinator.Pending)
       /\ Coordinator.values st !! i
          = Some (if bool_decide (i ∈ settled)
                  then Some (probe_result params node (probes i))
                  else None))
  /\ Coordinator.all st
     = match Coordinator.collect (Coordinator.values st) with
       | Some rs => Coordinator.Fulfilled rs
       | None => Coordinator.Pending
       end
  /\ Coordinator.calls st = omap (result_at nodes params probes) settled.

(** The claims that do not hold of the code, as they are worded. *)

Definition probe_url_escapes_star : Prop :=
  Encoder.buildDownloadUrl "https://x.org/tap/"
    (Encoder.buildQueryString (mkParams 4000%Z 5000%Z))
  = "https://x.org/tap/sync?LANG=VSS2&REQUEST=doQuery&FORMAT=XSAMS&QUERY=SELECT%20%2A%20WHERE%20RadTransWavelength%20%3E%3D%204000%20AND%20RadTransWavelength%20%3C%3D%205000".

Definition statistic_defaults_to_zero : Prop :=
  forall (h : Fetch.Headers) (name : string),
    (Fetch.get h name = None
     \/ exists v, Fetch.get h name = Some v /\ numeric v = false) ->
    Prober.getHeader h name = Int 0.

Definition first_whitespace_candidate_wins : Prop :=
  forall doc : Dom.Document,
    List.map tapEndpoint (RegistryLive.parseNodesXml doc)
    = List.flat_map
        (fun el => match candidate_urls el with
                   | [] => []
                   | u :: _ => [with_slash u]
                   end)
        (Dom.querySelectorAll "node" doc).

Definition live_endpoints_ok : Prop :=
  forall parseFromString fetched nodes,
    RegistryLive.fetchNodes parseFromString fetched = Ok nodes ->
    Forall endpoint_ok nodes.

Definition static_endpoints_ok : Prop :=
  forall fetched nodes,
    Registry.fetchNodes fetched = Ok nodes -> Forall endpoint_ok nodes.

End Spec.

(** ** Sample inputs *)

Module Sample.

Definition tab : string := String (ascii_of_nat 9) EmptyString.

Definition record (title url : string) : Dom.Node :=
  Dom.Element "node"
    [Dom.Element "title" [Dom.Text title]; Dom.Element "url" [Dom.Text url]].

Definition untitled (url : string) : Dom.Node :=
  Dom.Element "node" [Dom.Element "url" [Dom.Text url]].

Definition registry (records : list Dom.Node) : Dom.Document :=
  [Dom.Element "nodes" records].

Definition tabbed : Dom.Document :=
  registry [record "A" ("https://a.org/tap" ++ tab ++ "https://b.org/tap")].

Definition relative : Dom.Document := registry [record "A" "tap"].

Definition mixed : Dom.Document :=
  registry [record "A" "https://a.org/tap https://b.org/tap";
            record "B" "";
            untitled "https://c.org/tap/";
            record "" "https://d.org/tap"].

Definition nodes3 : list VamdcNode :=
  [mkNode "a" "A" "https://a.org/tap/";
   mkNode "b" "B" "https://b.org/tap/";
   mkNode "c" "C" "https://c.org/tap/"].

Definition params : QueryParams Z := mkParams 4000%Z 5000%Z.

Definition head_ok (h : Fetch.Headers) : result (Fetch.Response unit) :=
  Ok (Fetch.mkResponse 200 "OK" h (Ok tt)).

Definition head_status (code : N) : result (Fetch.Response unit) :=
  Ok (Fetch.mkResponse code "" [] (Ok tt)).

(** Node 0 answers with two of the three statistics, node 1 answers
    404 and node 2 runs into its deadline. *)
Definition probes (i : nat) : Coordinator.Probe :=
  match i with
  | 0 => Coordinator.mkProbe false
           (fun _ => head_ok [("VAMDC-COUNT-SPECIES", "12");
                              ("VAMDC-COUNT-STATES", "40")])
  | 1 => Coordinator.mkProbe false (fun _ => head_status 404)
  | _ => Coordinator.mkProbe true (fun _ => Throw ThrownOther)
  end.

(** A sink that counts its calls and never throws. *)
Definition counter (s : nat) (r : NodeResponse) : nat * option Thrown :=
  (S s, None).

(** A sink that throws at every call. *)
Definition throwing (s : nat) (r : NodeResponse) : nat * option Thrown :=
  (S s, Some (ThrownError "TypeError" "results is undefined")).

Definition json_ok (nodes : list VamdcNode)
  : result (Fetch.Response (list VamdcNode)) :=
  Ok (Fetch.mkResponse 200 "OK" [] (Ok nodes)).

End Sample.

(** ** The application shell ([App.vue]) *)

Module App.

(** The row [handleQuery] shows for a node whose probe has not settled. *)
Definition pending_entry (node : VamdcNode) : NodeResponse :=
  mkResponse (id node) (name node) Status.pending None None None None None.

(** [array.findIndex(p)]: the index of the first element that satisfies
    [p], and -1 when there is none. *)
Fixpoint findIndex_from {A} (p : A -> bool) (l : list A) (i : Z) : Z :=
  match l with
  | [] => (-1)%Z
  | x :: rest => if p x then i else findIndex_from p rest (i + 1)%Z
  end.

Definition findIndex {A} (p : A -> bool) (l : list A) : Z :=
  findIndex_from p l 0%Z.

(** The progress sink [handleQuery] passes to [queryAllNodes]; its state
    is [results.value]. *)
Definition onSettled (results : list NodeResponse) (response : NodeResponse)
  : list NodeResponse * option Thrown :=
  let index :=
    findIndex (fun r => String.eqb (nodeId r) (nodeId response)) results in
  if (0 <=? index)%Z then (<[Z.to_nat index := response]> results, None)
  else (results, None).

Record State := mkState {
  nodes : list VamdcNode;
  results : list NodeResponse;
  querying : bool;
  loading : bool;
  error : option string
}.

Definition initial : State :=
  {| nodes := []; results := []; querying := false; loading := true;
     error := None |}.

(** The [onMounted] hook: [fetched] is the settlement of the GET that
    the static [fetchNodes] issues. *)
Definition onMounted (st : State)
    (fetched : result (Fetch.Response (list VamdcNode))) : State :=
  match Registry.fetchNodes fetched with
  | Ok ns =>
      {| nodes := ns; results := results st; querying := querying st;
         loading := false; error := error st |}
  | Throw err =>
      {| nodes := nodes st; results := results st; querying := querying st;
         loading := false;
         error := Some match err with
                       | ThrownError _ emessage => emessage
                       | ThrownOther => "Failed to load nodes"
                       end |}
  end.

(** [handleQuery] under a schedule: the state of the application once
    the probes listed in [schedule] have settled, and the promise of
    [handleQuery] itself. *)
Definition handleQuery {num} `{NumberToString num} (st : State)
    (params : QueryParams num) (probes : nat -> Coordinator.Probe)
    (schedule : list nat) : State * Coordinator.Promise unit :=
  let rows := pending_entry <$> nodes st in
  let round :=
    Coordinator.queryAllNodes (nodes st) params onSettled probes rows
      schedule in
  match Coordinator.all round with
  | Coordinator.Fulfilled _ =>
      ({| nodes := nodes st; results := Coordinator.sink round;
          querying := false; loading := loading st; error := error st |},
       Coordinator.Fulfilled tt)
  | Coordinator.Rejected e =>
      ({| nodes := nodes st; results := Coordinator.sink round;
          querying := true; loading := loading st; error := error st |},
       Coordinator.Rejected e)
  | Coordinator.Pending =>
      ({| nodes := nodes st; results := Coordinator.sink round;
          querying := true; loading := loading st; error := error st |},
       Coordinator.Pending)
  end.

End App.

(** ** The query form ([components/QueryForm.vue]) *)

Module QueryForm.

(** The two bound fields.  A bound is an integer here; [!x] holds of an
    integer exactly when it is 0. *)
Record State := mkState {
  wavelengthMin : Z;
  wavelengthMax : Z
}.

Definition initial : State := mkState 4000 5000.

Definition falsy (x : Z) : bool := (x =? 0)%Z.

(** The computed [queryString], which the template shows when it is not
    empty. *)
Definition queryString (st : State) : string :=
  if falsy (wavelengthMin st) || falsy (wavelengthMax st) then EmptyString
  else "SELECT * WHERE RadTransWavelength >= " ++ toString (wavelengthMin st)
       ++ " AND RadTransWavelength <= " ++ toString (wavelengthMax st).

(** [handleSubmit]: the parameters of the [query] event it emits. *)
Definition handleSubmit (st : State) : QueryParams Z :=
  mkParams (wavelengthMin st) (wavelengthMax st).

End QueryForm.

(** ** Further notions used to state properties *)

Module Notions.

(** The inverse of [encodeURIComponent] on what it produces: a [%] and
    two hexadecimal digits stand for one byte. *)
Definition hex_value (c : ascii) : nat :=
  let n := nat_of_ascii c in
  if (48 <=? n)%nat && (n <=? 57)%nat then n - 48
  else if (65 <=? n)%nat && (n <=? 70)%nat then n - 55
  else 0.

Fixpoint percent_decode (s : string) : string :=
  match s with
  | EmptyString => EmptyString
  | String c rest =>
      if Ascii.eqb c "%" then
        match rest with
        | String h (String l rest') =>
            String (ascii_of_nat (16 * hex_value h + hex_value l))
              (percent_decode rest')
        | _ => String c (percent_decode rest)
        end
      else String c (percent_decode rest)
  end.

Fixpoint contains_char (c : ascii) (s : string) : bool :=
  match s with
  | EmptyString => false
  | String a rest => Ascii.eqb a c || contains_char c rest
  end.

Definition starts_with_digit (s : string) : bool :=
  match s with
  | EmptyString => false
  | String c _ => Encoder.in_range 48 57 c
  end.

(** The rows of [results.value] when the probes listed in [settled]
    have settled and the ids of the nodes are distinct. *)
Definition rows {num} `{NumberToString num} (nodes : list VamdcNode)
    (params : QueryParams num) (probes : nat -> Coordinator.Probe)
    (settled : list nat) : list NodeResponse :=
  imap (fun i node =>
          if bool_decide (i ∈ settled)
          then Spec.probe_result params node (probes i)
          else App.pending_entry node) nodes.

(** The registry document that lists [nodes], one record each. *)
Definition document_of (nodes : list VamdcNode) : Dom.Document :=
  Sample.registry
    (List.map (fun n => Sample.record (name n) (tapEndpoint n)) nodes).

End Notions.

(** ** Further sample inputs *)

Module Cases.

(** Two nodes that share the id [a], between them a node of its own. *)
Definition twins : list VamdcNode :=
  [mkNode "a" "A" "https://a.org/tap/";
   mkNode "b" "B" "https://b.org/tap/";
   mkNode "a" "A2" "https://a2.org/tap/"].

Definition loaded : App.State :=
  {| App.nodes := Sample.nodes3; App.results := []; App.querying := false;
     App.loading := false; App.error := None |}.

Definition loaded_twins : App.State :=
  {| App.nodes := twins; App.results := []; App.querying := false;
     App.loading := false; App.error := None |}.

Definition not_found : result (Fetch.Response (list VamdcNode)) :=
  Ok (Fetch.mkResponse 404 "Not Found" [] (Throw ThrownOther)).

End Cases.

(** ** Fan-out coordinator, the results as shared objects *)

(** [queryAllNodes] hands the sink the very object it then returns
    ([onProgress(response); return response]).  A sink may write to the
    objects it has been handed, at that call or at a later one; what the
    caller reads in the returned collection is what the objects hold
    then.  Module [Coordinator] above is the case of a sink that never
    writes to what it is handed. *)

Module Shared.

(** The result objects of a round: cell [i] holds the object the probe
    of node [i] returned, and nothing before that probe has settled.
    The index of a cell is the reference to the object. *)
Definition Store := list (option NodeResponse).

(** What a sink can do to the store: give new contents to objects that
    exist.  It can neither create nor remove an object. *)
Definition written (o n : option NodeResponse) : option NodeResponse :=
  match o, n with
  | Some _, Some v => Some v
  | _, _ => o
  end.

Fixpoint commit (old new : Store) : Store :=
  match old, new with
  | [], _ => []
  | _, [] => old
  | o :: os, n :: ns => written o n :: commit os ns
  end.

Definition deref (store : Store) (ref : nat) : option NodeResponse :=
  match store !! ref with
  | Some (Some v) => Some v
  | _ => None
  end.

(** The contents of a collection of references. *)
Definition read (store : Store) (refs : list nat) : option (list NodeResponse) :=
  Coordinator.collect (deref store <$> refs).

Section FanOut.
Context {num : Type} `{NumberToString num} {Sink : Type}.
Variable nodes : list VamdcNode.
Variable params : QueryParams num.

(** The progress sink: called with its own state, the store and the
    reference to the object it is handed; it gives back its state, the
    store as it leaves it, and what it throws, if it throws. *)
Variable onProgress : Sink -> Store -> nat -> Sink * Store * option Thrown.
Variable probes : nat -> Coordinator.Probe.

Record State := mkState {
  promises : list (Coordinator.Promise nat);
  sink : Sink;
  calls : list NodeResponse;
  store : Store;
  values : list (option nat);
  all : Coordinator.Promise (list nat)
}.

(** The async arrow function of node [i] from the point where
    [queryNode] settles: [queryNode] has created the object [i], the
    sink is called with it, and the arrow returns the reference. *)
Definition task (i : nat) (node : VamdcNode) (p : Coordinator.Probe)
    (s : Sink) (objects : Store)
  : result nat * Sink * Store * list NodeResponse :=
  match Prober.queryNode (Coordinator.network p) node params
          (Coordinator.signal_of p) with
  | Throw e => (Throw e, s, objects, [])
  | Ok response =>
      let created := <[i := Some response]> objects in
      let '(s', after, thrown) := onProgress s created i in
      match thrown with
      | Some e => (Throw e, s', commit created after, [response])
      | None => (Ok i, s', commit created after, [response])
      end
  end.

Definition settle (st : State) (i : nat) : State :=
  match promises st !! i, nodes !! i with
  | Some Coordinator.Pending, Some node =>
      let '(outcome, s', objects, made) :=
        task i node (probes i) (sink st) (store st) in
      match outcome with
      | Ok ref =>
          let vals := <[i := Some ref]> (values st) in
          {| promises := <[i := Coordinator.Fulfilled ref]> (promises st);
             sink := s';
             calls := (calls st ++ made)%list;
             store := objects;
             values := vals;
             all := match all st, Coordinator.collect vals with
                    | Coordinator.Pending, Some refs => Coordinator.Fulfilled refs
                    | a, _ => a
                    end |}
      | Throw e =>
          {| promises := <[i := Coordinator.Rejected e]> (promises st);
             sink := s';
             calls := (calls st ++ made)%list;
             store := objects;
             values := values st;
             all := match all st with
                    | Coordinator.Pending => Coordinator.Rejected e
                    | a => a
                    end |}
      end
  | _, _ => st
  end.

Definition start (s0 : Sink) : State :=
  let vals := replicate (length nodes) None in
  {| promises := replicate (length nodes) Coordinator.Pending;
     sink := s0;
     calls := [];
     store := replicate (length nodes) None;
     values := vals;
     all := match Coordinator.collect vals with
            | Some refs => Coordinator.Fulfilled refs
            | None => Coordinator.Pending
            end |}.

Definition queryAllNodes (s0 : Sink) (schedule : list nat) : State :=
  List.fold_left settle schedule (start s0).

(** What the caller of [queryAllNodes] reads once the promise is
    fulfilled: the contents of the objects the collection refers to. *)
Definition collection (st : State) : option (list NodeResponse) :=
  match all st with
  | Coordinator.Fulfilled refs => read (store st) refs
  | _ => None
  end.

(** The call of the sink made when the probe of node [i] settles, as it
    acts on the state of the sink and on the store. *)
Definition sink_call (acc : Sink * Store) (i : nat) : Sink * Store :=
  match nodes !! i with
  | Some node =>
      let created :=
        <[i := Some (Spec.probe_result params node (probes i))]> (snd acc) in
      let '(s', after, _) := onProgress (fst acc) created i in
      (s', commit created after)
  | None => acc
  end.

End FanOut.

Arguments promises {Sink} _.
Arguments sink {Sink} _.
Arguments calls {Sink} _.
Arguments store {Sink} _.
Arguments values {Sink} _.
Arguments all {Sink} _.
Arguments collection {Sink} _.

(** A sink that does not throw, and a sink that does not write to the
    objects it is handed. *)
Definition never_throws {Sink : Type}
    (onProgress : Sink -> Store -> nat -> Sink * Store * option Thrown)
  : Prop :=
  forall s objects i, snd (onProgress s objects i) = None.

Definition never_writes {Sink : Type}
    (onProgress : Sink -> Store -> nat -> Sink * Store * option Thrown)
  : Prop :=
  forall s objects i, snd (fst (onProgress s objects i)) = objects.

(** The state of a round in which the probes listed in [settled] have
    settled and the sink has not thrown. *)
Definition round_state {num} `{NumberToString num} {Sink : Type}
    (nodes : list VamdcNode) (params : QueryParams num)
    (onProgress : Sink -> Store -> nat -> Sink * Store * option Thrown)
    (probes : nat -> Coordinator.Probe) (settled : list nat)
    (st : State (Sink := Sink)) : Prop :=
  length (promises st) = length nodes
  /\ length (values st) = length nodes
  /\ length (store st) = length nodes
  /\ (forall i, i < length nodes ->
       promises st !! i
       = Some (if bool_decide (i ∈ settled) then Coordinator.Fulfilled i
               else Coordinator.Pending)
       /\ values st !! i
          = Some (if bool_decide (i ∈ settled) then Some i else None)
       /\ (if bool_decide (i ∈ settled)
           then exists v, store st !! i = Some (Some v)
           else store st !! i = Some None))
  /\ all st
     = match Coordinator.collect (values st) with
       | Some refs => Coordinator.Fulfilled refs
       | None => Coordinator.Pending
       end
  /\ (never_writes onProgress ->
      forall i node, nodes !! i = Some node -> i ∈ settled ->
        store st !! i
        = Some (Some (Spec.probe_result params node (probes i)))).

(** A sink that only reads the object it is handed. *)
Definition reader {Sink : Type}
    (f : Sink -> NodeResponse -> Sink * option Thrown)
  : Sink -> Store -> nat -> Sink * Store * option Thrown :=
  fun s objects i =>
    match deref objects i with
    | Some r => let '(s', thrown) := f s r in (s', objects, thrown)
    | None => (s, objects, None)
    end.



(** Claims C1 and C6 as they are worded, for the sinks that satisfy
    [P]: the claims themselves put no condition on the sink. *)




End Shared.

(** Claim C2 as it is worded: whatever the reason of the abort, a
    request cancelled before it settles gives [timeout]. *)
Module Worded.

Definition every_cancellation_is_timeout : Prop :=
  forall (network : string -> result (Fetch.Response unit))
         (node : VamdcNode) (params : QueryParams Z) (reason : Thrown),
    Prober.queryNode network node params (Fetch.Aborted reason)
    = Ok (Spec.timeout_response node).

(** The reason of a signal made by [AbortSignal.timeout(ms)]. *)
Definition timeout_error : Thrown :=
  ThrownError "TimeoutError" "signal timed out".

End Worded.

(** * Properties *)

(** ** Query encoder *)

(** C3, as worded: the probe URL of the scenario would carry [%2A] for
    the star of the predicate.  It does not. *)
Lemma probe_url_star_not_escaped : ~ Spec.probe_url_escapes_star.
Proof.
  unfold Spec.probe_url_escapes_star. intros Heq.
  apply String.eqb_eq in Heq. vm_compute in Heq. discriminate Heq.
Qed.

(** C3, amended: with [wavelengthMin = 4000] and [wavelengthMax = 5000]
    against the base URL [https://x.org/tap/] the probe URL is the one
    of the scenario with the star left as it is, because
    [encodeURIComponent] does not escape [*]. *)
Theorem probe_url_scenario :
  Encoder.buildDownloadUrl "https://x.org/tap/"
    (Encoder.buildQueryString (mkParams 4000%Z 5000%Z))
  = "https://x.org/tap/sync?LANG=VSS2&REQUEST=doQuery&FORMAT=XSAMS&QUERY=SELECT%20*%20WHERE%20RadTransWavelength%20%3E%3D%204000%20AND%20RadTransWavelength%20%3C%3D%205000".
Proof. vm_compute. reflexivity. Qed.

(** ** Node prober *)

Section ProberFacts.
Context {num : Type} `{NumberToString num}.
Variable network : string -> result (Fetch.Response unit).
Variable node : VamdcNode.
Variable params : QueryParams num.

Lemma queryNode_rejected signal e :
  Fetch.fetch network (Spec.probe_url node params) signal = Throw e ->
  Prober.queryNode network node params signal
  = Ok match e with
       | ThrownError ename emessage =>
           if String.eqb ename "AbortError" then (Spec.timeout_response node)
           else Spec.error_response node emessage
       | ThrownOther => Spec.error_response node "Unknown error"
       end.
Proof.
  intros Hf. unfold Prober.queryNode. unfold Spec.probe_url in Hf. rewrite Hf. simpl.
  destruct e as [ename emessage|]; [|reflexivity].
  destruct (String.eqb ename "AbortError"); reflexivity.
Qed.

Lemma queryNode_resolved signal response :
  Fetch.fetch network (Spec.probe_url node params) signal = Ok response ->
  Prober.queryNode network node params signal
  = Ok (if Fetch.ok response then
          {| nodeId := id node; nodeName := name node;
             status := Status.success;
             numSpecies :=
               Some (Prober.getHeader (Fetch.headers response) "VAMDC-COUNT-SPECIES");
             numStates :=
               Some (Prober.getHeader (Fetch.headers response) "VAMDC-COUNT-STATES");
             numTransitions :=
               Some (Prober.getHeader (Fetch.headers response) "VAMDC-COUNT-RADIATIVE");
             downloadUrl := Some (Spec.probe_url node params); error := None |}
        else Spec.error_response node ("HTTP " ++ Str.of_N (Fetch.status response))).
Proof.
  intros Hf. unfold Prober.queryNode. unfold Spec.probe_url in Hf. rewrite Hf. simpl.
  destruct (Fetch.ok response); reflexivity.
Qed.

Lemma absent_get (h : Fetch.Headers) (header : string) :
  Spec.absent h header -> Fetch.get h header = None.
Proof.
  intros Habs. unfold Fetch.get.
  assert (Hnil : List.filter (Fetch.name_matches header) h = []).
  { induction Habs as [|kv h' Hkv _ IH]; [reflexivity|].
    simpl. unfold Fetch.name_matches at 1.
    apply String.eqb_neq in Hkv. rewrite Hkv. exact IH. }
  rewrite Hnil. reflexivity.
Qed.

Lemma parseInt_letter (c : ascii) (rest : string) :
  Spec.is_alpha c = true -> ParseInt.parseInt (String c rest) = NaN.
Proof.
  intros Hc.
  destruct c as [b0 b1 b2 b3 b4 b5 b6 b7].
  destruct b0, b1, b2, b3, b4, b5, b6, b7;
    try (vm_compute in Hc; discriminate Hc);
    destruct rest as [|c2 [|c3 r3]]; vm_compute; reflexivity.
Qed.

Lemma getHeader_rule (h : Fetch.Headers) (header : string) :
  Spec.statistic_rule h header (Prober.getHeader h header).
Proof.
  unfold Spec.statistic_rule, Prober.getHeader. repeat split.
  - intros Habs. rewrite (absent_get _ _ Habs). reflexivity.
  - intros Hg. rewrite Hg. reflexivity.
  - intros v Hg Hv. rewrite Hg. destruct v; [congruence|reflexivity].
  - intros c rest Hg Hc. rewrite Hg. simpl. apply parseInt_letter, Hc.
Qed.

Lemma queryNode_total signal :
  exists r, Prober.queryNode network node params signal = Ok r
            /\ nodeId r = id node /\ nodeName r = name node
            /\ (status r = Status.success \/ status r = Status.error
                \/ status r = Status.timeout).
Proof.
  destruct (Fetch.fetch network (Spec.probe_url node params) signal) as [response|e] eqn:Hf.
  - rewrite (queryNode_resolved _ _ Hf).
    destruct (Fetch.ok response); eexists; repeat split; simpl; auto.
  - rewrite (queryNode_rejected _ _ Hf).
    destruct e as [ename emessage|];
      [destruct (String.eqb ename "AbortError")|];
      eexists; repeat split; simpl; auto.
Qed.

End ProberFacts.

(** C2, amended: [queryNode] never throws.  Whatever the network and
    the signal do, it returns one result, for the node it was given,
    whose status is [success], [error] or [timeout].  An abort by
    [controller.abort()], and any rejection by an error named
    [AbortError], gives [timeout] with the text [Request timeout]; any
    other failure, an abort with another reason included, gives [error]
    with the failure's message, or [Unknown error] when what was thrown
    is not an [Error]. *)
Theorem queryNode_never_throws {num : Type} `{NumberToString num}
    (network : string -> result (Fetch.Response unit))
    (node : VamdcNode) (params : QueryParams num)
    (signal : Fetch.AbortSignal) :
  (exists r, Prober.queryNode network node params signal = Ok r
             /\ nodeId r = id node /\ nodeName r = name node
             /\ (status r = Status.success \/ status r = Status.error
                 \/ status r = Status.timeout))
  /\ Prober.queryNode network node params (Fetch.Aborted Fetch.abort_error)
     = Ok (Spec.timeout_response node)
  /\ (forall msg,
        Fetch.fetch network (Spec.probe_url node params) signal
        = Throw (ThrownError "AbortError" msg) ->
        Prober.queryNode network node params signal
        = Ok (Spec.timeout_response node))
  /\ (forall ename msg,
        Fetch.fetch network (Spec.probe_url node params) signal
        = Throw (ThrownError ename msg) ->
        ename <> "AbortError" ->
        Prober.queryNode network node params signal
        = Ok (Spec.error_response node msg))
  /\ (Fetch.fetch network (Spec.probe_url node params) signal
      = Throw ThrownOther ->
      Prober.queryNode network node params signal
      = Ok (Spec.error_response node "Unknown error"))
  /\ (forall ename msg,
        ename <> "AbortError" ->
        Prober.queryNode network node params
          (Fetch.Aborted (ThrownError ename msg))
        = Ok (Spec.error_response node msg))
  /\ Prober.queryNode network node params (Fetch.Aborted ThrownOther)
     = Ok (Spec.error_response node "Unknown error").
Proof.
  split; [apply queryNode_total|].
  split; [reflexivity|].
  split; [|split; [|split; [|split]]].
  - intros msg Hf. rewrite (queryNode_rejected _ _ _ _ _ Hf). reflexivity.
  - intros ename msg Hf Hne. rewrite (queryNode_rejected _ _ _ _ _ Hf).
    apply String.eqb_neq in Hne. rewrite Hne. reflexivity.
  - intros Hf. rewrite (queryNode_rejected _ _ _ _ _ Hf). reflexivity.
  - intros ename msg Hne.
    rewrite (queryNode_rejected network node params
               (Fetch.Aborted (ThrownError ename msg)) _ eq_refl).
    apply String.eqb_neq in Hne. rewrite Hne. reflexivity.
  - reflexivity.
Qed.

Lemma queryNode_never_throws_witness :
  Prober.queryNode (fun _ => Throw (ThrownError "TypeError" "Failed to fetch"))
    (mkNode "a" "A" "https://a.org/tap/") Sample.params Fetch.NotAborted
  = Ok (Spec.error_response (mkNode "a" "A" "https://a.org/tap/")
          "Failed to fetch").
Proof.
  destruct (queryNode_never_throws
              (fun _ => Throw (ThrownError "TypeError" "Failed to fetch"))
              (mkNode "a" "A" "https://a.org/tap/") Sample.params
              Fetch.NotAborted) as (_ & _ & _ & Herr & _).
  apply (Herr "TypeError"); [reflexivity | discriminate].
Defined.

(** C7: when the response has a status outside 200 to 299, [queryNode]
    returns a result with status [error] and the text [HTTP <code>],
    without any of the three statistics and without a download URL. *)
Theorem queryNode_http_error {num : Type} `{NumberToString num}
    (network : string -> result (Fetch.Response unit))
    (node : VamdcNode) (params : QueryParams num)
    (signal : Fetch.AbortSignal) (response : Fetch.Response unit) :
  Fetch.fetch network (Spec.probe_url node params) signal = Ok response ->
  Fetch.ok response = false ->
  exists r, Prober.queryNode network node params signal = Ok r
            /\ status r = Status.error
            /\ error r = Some ("HTTP " ++ Str.of_N (Fetch.status response))
            /\ numSpecies r = None /\ numStates r = None
            /\ numTransitions r = None /\ downloadUrl r = None.
Proof.
  intros Hf Hok. rewrite (queryNode_resolved _ _ _ _ _ Hf), Hok.
  eexists. repeat split.
Qed.

Lemma queryNode_http_error_witness :
  exists r, Prober.queryNode (fun _ => Sample.head_status 404)
              (mkNode "b" "B" "https://b.org/tap/") Sample.params
              Fetch.NotAborted = Ok r
            /\ status r = Status.error
            /\ error r = Some "HTTP 404"
            /\ numSpecies r = None /\ numStates r = None
            /\ numTransitions r = None /\ downloadUrl r = None.
Proof.
  apply (queryNode_http_error (fun _ => Sample.head_status 404)
           (mkNode "b" "B" "https://b.org/tap/") Sample.params
           Fetch.NotAborted (Fetch.mkResponse 404 "" [] (Ok tt)));
    reflexivity.
Defined.

(** C4, as worded: a statistic would be 0 whenever its header is absent
    or not numeric.  A header that reads [n/a] gives [NaN]. *)
Lemma statistic_not_numeric_is_NaN : ~ Spec.statistic_defaults_to_zero.
Proof.
  intros Hclaim.
  specialize (Hclaim [("VAMDC-COUNT-SPECIES", "n/a")] "VAMDC-COUNT-SPECIES").
  assert (Hnan : Prober.getHeader [("VAMDC-COUNT-SPECIES", "n/a")]
                   "VAMDC-COUNT-SPECIES" = NaN) by reflexivity.
  rewrite Hnan in Hclaim.
  assert (Habs : NaN = Int 0); [|discriminate Habs].
  apply Hclaim. right. exists "n/a". split; reflexivity.
Qed.

(** C4, amended: on a success response [queryNode] raises no error and
    gives each of [numSpecies], [numStates] and [numTransitions] a
    value, never leaves one out.  The value is 0 when the header is
    absent or empty; otherwise it is [parseInt(value, 10)], which is
    [NaN] for a value that starts with a letter. *)
Theorem statistics_of_success {num : Type} `{NumberToString num}
    (network : string -> result (Fetch.Response unit))
    (node : VamdcNode) (params : QueryParams num)
    (signal : Fetch.AbortSignal) (response : Fetch.Response unit) :
  Fetch.fetch network (Spec.probe_url node params) signal = Ok response ->
  Fetch.ok response = true ->
  exists r sp st tr,
    Prober.queryNode network node params signal = Ok r
    /\ status r = Status.success
    /\ numSpecies r = Some sp /\ numStates r = Some st
    /\ numTransitions r = Some tr
    /\ Spec.statistic_rule (Fetch.headers response) "VAMDC-COUNT-SPECIES" sp
    /\ Spec.statistic_rule (Fetch.headers response) "VAMDC-COUNT-STATES" st
    /\ Spec.statistic_rule (Fetch.headers response) "VAMDC-COUNT-RADIATIVE" tr.
Proof.
  intros Hf Hok. rewrite (queryNode_resolved _ _ _ _ _ Hf), Hok.
  do 4 eexists. repeat apply conj; try reflexivity; apply getHeader_rule.
Qed.

Lemma statistics_of_success_witness :
  exists r,
    Prober.queryNode
      (fun _ => Sample.head_ok [("VAMDC-COUNT-SPECIES", "12");
                                ("VAMDC-COUNT-STATES", "40")])
      (mkNode "a" "A" "https://a.org/tap/") Sample.params Fetch.NotAborted
    = Ok r
    /\ numSpecies r = Some (Int 12) /\ numStates r = Some (Int 40)
    /\ numTransitions r = Some (Int 0).
Proof.
  destruct (statistics_of_success
              (fun _ => Sample.head_ok [("VAMDC-COUNT-SPECIES", "12");
                                        ("VAMDC-COUNT-STATES", "40")])
              (mkNode "a" "A" "https://a.org/tap/") Sample.params
              Fetch.NotAborted
              (Fetch.mkResponse 200 "OK"
                 [("VAMDC-COUNT-SPECIES", "12"); ("VAMDC-COUNT-STATES", "40")]
                 (Ok tt))
              eq_refl eq_refl)
    as (r & sp & st & tr & Hq & _ & Hsp & Hst & Htr & Rsp & Rst & Rtr).
  exists r. split; [exact Hq|].
  destruct Rsp as (_ & _ & Rsp & _).
  destruct Rst as (_ & _ & Rst & _).
  destruct Rtr as (Rtr & _).
  rewrite Hsp, Hst, Htr.
  rewrite (Rsp "12" eq_refl ltac:(discriminate)).
  rewrite (Rst "40" eq_refl ltac:(discriminate)).
  rewrite Rtr.
  - repeat split.
  - repeat constructor; vm_compute; discriminate.
Defined.

(** ** Node directory resolver *)

Lemma to_uint_not_Nil (n : nat) : Nat.to_uint n <> Decimal.Nil.
Proof.
  intros Hnil.
  assert (Hn : n = 0%nat).
  { rewrite <- (DecimalNat.Unsigned.of_to n), Hnil. reflexivity. }
  subst n. discriminate Hnil.
Qed.

Lemma of_nat_inj (a b : nat) : Str.of_nat a = Str.of_nat b -> a = b.
Proof.
  unfold Str.of_nat. intros Heq.
  apply DecimalNat.Unsigned.to_uint_inj.
  assert (Ha := NilZero.usu (Nat.to_uint a) (to_uint_not_Nil a)).
  assert (Hb := NilZero.usu (Nat.to_uint b) (to_uint_not_Nil b)).
  rewrite Heq in Ha. rewrite Ha in Hb. congruence.
Qed.

Lemma split_at_head (s : string) :
  List.head (Str.split_at " " s) = Some (Spec.before_space s).
Proof.
  induction s as [|a rest IH]; [reflexivity|].
  simpl. destruct (Ascii.eqb a " "); [reflexivity|].
  destruct (Str.split_at " " rest) as [|p ps]; [discriminate IH|].
  simpl in IH. injection IH as ->. reflexivity.
Qed.

Lemma truthy_false (s : string) : Str.truthy s = false -> s = EmptyString.
Proof. destruct s; [reflexivity | discriminate]. Qed.

Lemma truthy_true (s : string) : s <> EmptyString -> Str.truthy s = true.
Proof. destruct s; [congruence | reflexivity]. Qed.

Lemma endsWith_snoc (u : string) (c : ascii) :
  Str.endsWith_char (u ++ String c EmptyString) c = true.
Proof.
  induction u as [|a rest IH]; simpl.
  - apply Ascii.eqb_refl.
  - destruct rest; exact IH.
Qed.

Lemma with_slash_ends (u : string) :
  Str.endsWith_char (Spec.with_slash u) "/" = true.
Proof.
  unfold Spec.with_slash.
  destruct (Str.endsWith_char u "/") eqn:He; [exact He | apply endsWith_snoc].
Qed.

Lemma visit_record (el : Dom.Node) (index : nat) (nodes : list VamdcNode) :
  RegistryLive.visit el index nodes
  = (nodes ++ Spec.record_node index el)%list.
Proof.
  unfold RegistryLive.visit, Spec.record_node.
  assert (Hurl : RegistryLive.or_else
                   (option_map Dom.textContent
                      (Dom.querySelector "url" (Dom.children el))) ""
                 = Spec.url_text el).
  { unfold Spec.url_text.
    destruct (Dom.querySelector "url" (Dom.children el)) as [u|]; simpl;
      [|reflexivity].
    destruct (Str.truthy (Dom.textContent u)) eqn:Ht; [reflexivity|].
    symmetry. apply truthy_false, Ht. }
  assert (Htitle : RegistryLive.or_else
                     (option_map Dom.textContent
                        (Dom.querySelector "title" (Dom.children el))) "Unknown"
                   = if Str.truthy (Spec.title_text el) then Spec.title_text el
                     else "Unknown").
  { unfold Spec.title_text.
    destruct (Dom.querySelector "title" (Dom.children el)) as [t|];
      reflexivity. }
  rewrite Hurl, Htitle, split_at_head. simpl RegistryLive.nullish.
  unfold Spec.with_slash.
  destruct (Spec.before_space (Spec.url_text el)) as [|a rest] eqn:Hu.
  - simpl. symmetry. apply app_nil_r.
  - change (Str.truthy (String a rest)) with true.
    destruct (Str.endsWith_char (String a rest) "/"); reflexivity.
Qed.

Lemma forEach_records (els : list Dom.Node) (index : nat)
    (nodes : list VamdcNode) :
  RegistryLive.forEach els index nodes
  = (nodes ++ Spec.records_from index els)%list.
Proof.
  revert index nodes.
  induction els as [|el rest IH]; intros index nodes; simpl.
  - symmetry. apply app_nil_r.
  - rewrite IH, visit_record. symmetry. apply app_assoc.
Qed.

Lemma parseNodesXml_eq (doc : Dom.Document) :
  RegistryLive.parseNodesXml doc
  = Spec.records_from 0 (Dom.querySelectorAll "node" doc).
Proof. unfold RegistryLive.parseNodesXml. apply forEach_records. Qed.

Lemma record_node_cases (index : nat) (el : Dom.Node) :
  (Spec.before_space (Spec.url_text el) <> EmptyString ->
   Spec.record_node index el
   = [ {| id := "node-" ++ Str.of_nat index;
          name := if Str.truthy (Spec.title_text el) then Spec.title_text el
                  else "Unknown";
          tapEndpoint := Spec.with_slash (Spec.before_space (Spec.url_text el)) |} ])
  /\ (Spec.before_space (Spec.url_text el) = EmptyString ->
      Spec.record_node index el = []).
Proof.
  unfold Spec.record_node. split; intros Hu.
  - rewrite (truthy_true _ Hu). reflexivity.
  - rewrite Hu. reflexivity.
Qed.

Lemma in_records_from (els : list Dom.Node) (index : nat) (n : VamdcNode) :
  In n (Spec.records_from index els) <->
  exists i el, els !! i = Some el /\ In n (Spec.record_node (index + i) el).
Proof.
  revert index. induction els as [|el rest IH]; intros index; simpl.
  - split; [tauto|]. intros (i & el & Hl & _). discriminate Hl.
  - rewrite in_app_iff, IH. split.
    + intros [Hin | (i & el' & Hl & Hin)].
      * exists 0%nat, el. rewrite Nat.add_0_r. auto.
      * exists (S i), el'. rewrite Nat.add_succ_r. auto.
    + intros ([|i] & el' & Hl & Hin); simpl in Hl.
      * injection Hl as <-. rewrite Nat.add_0_r in Hin. auto.
      * right. exists i, el'. rewrite Nat.add_succ_r in Hin. auto.
Qed.

Lemma record_node_id (index : nat) (el : Dom.Node) (n : VamdcNode) :
  In n (Spec.record_node index el) -> id n = "node-" ++ Str.of_nat index.
Proof.
  unfold Spec.record_node.
  destruct (Str.truthy _); simpl; [|tauto].
  intros [<- | []]. reflexivity.
Qed.

Lemma record_node_ends (index : nat) (el : Dom.Node) :
  Forall (fun n => Str.endsWith_char (tapEndpoint n) "/" = true)
    (Spec.record_node index el).
Proof.
  unfold Spec.record_node.
  destruct (Str.truthy _); constructor; [|constructor].
  simpl. apply with_slash_ends.
Qed.

Lemma records_from_ends (els : list Dom.Node) (index : nat) :
  Forall (fun n => Str.endsWith_char (tapEndpoint n) "/" = true)
    (Spec.records_from index els).
Proof.
  revert index. induction els as [|el rest IH]; intros index; simpl.
  - constructor.
  - apply Forall_app. split; [apply record_node_ends | apply IH].
Qed.

Lemma records_from_NoDup (els : list Dom.Node) (index : nat) :
  NoDup (List.map id (Spec.records_from index els)).
Proof.
  revert index. induction els as [|el rest IH]; intros index; simpl.
  - constructor.
  - rewrite List.map_app.
    assert (Hlater : ~ In ("node-" ++ Str.of_nat index)
                       (List.map id (Spec.records_from (S index) rest))).
    { intros Hin. apply in_map_iff in Hin as (n & Hid & Hin).
      apply in_records_from in Hin as (i & el' & _ & Hin).
      apply record_node_id in Hin. rewrite Hin in Hid.
      injection Hid as Hid. apply of_nat_inj in Hid. lia. }
    unfold Spec.record_node.
    destruct (Str.truthy _); simpl; [|apply IH].
    constructor; [rewrite list_elem_of_In; exact Hlater | apply IH].
Qed.

Lemma live_fetchNodes_inv (parseFromString : string -> Dom.Document)
    (fetched : result (Fetch.Response string)) (nodes : list VamdcNode) :
  RegistryLive.fetchNodes parseFromString fetched = Ok nodes ->
  exists response xmlText,
    fetched = Ok response /\ Fetch.ok response = true
    /\ Fetch.body response = Ok xmlText
    /\ nodes = RegistryLive.parseNodesXml (parseFromString xmlText).
Proof.
  unfold RegistryLive.fetchNodes.
  destruct fetched as [response|e]; simpl; [|discriminate].
  destruct (Fetch.ok response) eqn:Hok; simpl; [|discriminate].
  destruct (Fetch.body response) as [xmlText|e] eqn:Hb; simpl; [|discriminate].
  intros [= <-]. exists response, xmlText. auto.
Qed.

(** C5, as worded: the first of the candidate URLs that white space
    separates would be used.  A record whose two URLs are separated by a
    TAB gives one node whose URL is the whole text. *)
Lemma tab_separated_urls_kept_whole : ~ Spec.first_whitespace_candidate_wins.
Proof.
  intros Hclaim. specialize (Hclaim Sample.tabbed).
  vm_compute in Hclaim. discriminate Hclaim.
Qed.

(** C5, amended: the URL of a record is the text of its [url] element up
    to the first U+0020 (only that character separates candidates; what
    follows it is ignored).  [parseNodesXml] gives, in document order,
    one node for each record whose URL is not empty, with a ['/'] added
    when the URL does not end with one, and no node for a record whose
    [url] element is missing or empty.  [fetchNodes] returns that list
    as its result, the empty list included. *)
Theorem parseNodesXml_records (doc : Dom.Document) :
  RegistryLive.parseNodesXml doc
  = Spec.records_from 0 (Dom.querySelectorAll "node" doc)
  /\ (forall index el,
        (Spec.before_space (Spec.url_text el) <> EmptyString ->
         exists n,
           Spec.record_node index el = [n]
           /\ tapEndpoint n
              = Spec.with_slash (Spec.before_space (Spec.url_text el))
           /\ Str.endsWith_char (tapEndpoint n) "/" = true)
        /\ (Spec.url_text el = EmptyString -> Spec.record_node index el = []))
  /\ (forall parseFromString response xmlText,
        Fetch.ok response = true ->
        Fetch.body response = Ok xmlText ->
        parseFromString xmlText = doc ->
        RegistryLive.fetchNodes parseFromString (Ok response)
        = Ok (RegistryLive.parseNodesXml doc)).
Proof.
  split; [apply parseNodesXml_eq|]. split.
  - intros index el. destruct (record_node_cases index el) as [Hsome Hnone].
    split.
    + intros Hu. eexists. split; [apply Hsome, Hu|].
      split; [reflexivity | apply with_slash_ends].
    + intros Hu. apply Hnone. rewrite Hu. reflexivity.
  - intros parseFromString response xmlText Hok Hb <-.
    unfold RegistryLive.fetchNodes. simpl. rewrite Hok, Hb. reflexivity.
Qed.

Lemma parseNodesXml_records_witness :
  RegistryLive.parseNodesXml Sample.mixed
  = [mkNode "node-0" "A" "https://a.org/tap/";
     mkNode "node-2" "Unknown" "https://c.org/tap/";
     mkNode "node-3" "Unknown" "https://d.org/tap/"].
Proof.
  destruct (parseNodesXml_records Sample.mixed) as [Heq _].
  rewrite Heq. reflexivity.
Defined.

(** C8, as worded: under both strategies every endpoint would be an
    absolute URL that ends with ['/'].  The live strategy turns the text
    [tap] into the endpoint [tap/], and the static strategy returns the
    endpoint [https://x.org/tap] of its resource as it is. *)
Lemma endpoints_not_normalized :
  ~ Spec.live_endpoints_ok /\ ~ Spec.static_endpoints_ok.
Proof.
  split.
  - intros Hclaim.
    specialize (Hclaim (fun _ => Sample.relative)
                  (Ok (Fetch.mkResponse 200 "OK" [] (Ok EmptyString)))
                  [mkNode "node-0" "A" "tap/"] eq_refl).
    apply Forall_inv in Hclaim. destruct Hclaim as [Habs _].
    vm_compute in Habs. discriminate Habs.
  - intros Hclaim.
    specialize (Hclaim (Sample.json_ok [mkNode "n" "N" "https://x.org/tap"])
                  [mkNode "n" "N" "https://x.org/tap"] eq_refl).
    apply Forall_inv in Hclaim. destruct Hclaim as [_ Hends].
    vm_compute in Hends. discriminate Hends.
Qed.

(** C8, amended: every node of the live strategy has an endpoint that
    ends with ['/'] (nothing checks that it is absolute).  The static
    strategy returns the records of its resource unchanged, so an
    endpoint ends with ['/'] there when the resource wrote it so. *)
Theorem resolved_endpoints :
  (forall doc,
     Forall (fun n => Str.endsWith_char (tapEndpoint n) "/" = true)
       (RegistryLive.parseNodesXml doc))
  /\ (forall parseFromString fetched nodes,
        RegistryLive.fetchNodes parseFromString fetched = Ok nodes ->
        Forall (fun n => Str.endsWith_char (tapEndpoint n) "/" = true) nodes)
  /\ (forall fetched nodes,
        Registry.fetchNodes fetched = Ok nodes ->
        exists response,
          fetched = Ok response /\ Fetch.ok response = true
          /\ Fetch.body response = Ok nodes).
Proof.
  assert (Hlive : forall doc,
             Forall (fun n => Str.endsWith_char (tapEndpoint n) "/" = true)
               (RegistryLive.parseNodesXml doc)).
  { intros doc. rewrite parseNodesXml_eq. apply records_from_ends. }
  split; [exact Hlive|]. split.
  - intros parseFromString fetched nodes Hf.
    apply live_fetchNodes_inv in Hf as (response & xmlText & _ & _ & _ & ->).
    apply Hlive.
  - intros fetched nodes. unfold Registry.fetchNodes.
    destruct fetched as [response|e]; simpl; [|discriminate].
    destruct (Fetch.ok response) eqn:Hok; simpl; [|discriminate].
    intros Hb. exists response. auto.
Qed.

Lemma resolved_endpoints_witness :
  Forall (fun n => Str.endsWith_char (tapEndpoint n) "/" = true)
    (RegistryLive.parseNodesXml Sample.mixed)
  /\ exists response,
       Sample.json_ok Sample.nodes3 = Ok response
       /\ Fetch.ok response = true
       /\ Fetch.body response = Ok Sample.nodes3.
Proof.
  destruct resolved_endpoints as (Hlive & _ & Hstatic).
  split; [apply Hlive|].
  apply Hstatic. reflexivity.
Defined.

(** C9: in a live resolution the node made from the record number
    [index] of the document has the id [node-<index>], and the ids of
    the nodes of one resolution are pairwise distinct. *)
Theorem live_ids_distinct (doc : Dom.Document) :
  NoDup (List.map id (RegistryLive.parseNodesXml doc))
  /\ Forall (fun n =>
               exists index el,
                 Dom.querySelectorAll "node" doc !! index = Some el
                 /\ In n (Spec.record_node index el)
                 /\ id n = "node-" ++ Str.of_nat index)
       (RegistryLive.parseNodesXml doc).
Proof.
  rewrite parseNodesXml_eq. split; [apply records_from_NoDup|].
  apply List.Forall_forall. intros n Hin.
  apply in_records_from in Hin as (i & el & Hl & Hin).
  exists i, el. simpl in Hin.
  split; [exact Hl|]. split; [exact Hin|].
  apply (record_node_id _ _ _ Hin).
Qed.

(** C10: a record with a usable URL but without a [title] element, or
    with an empty title, still gives a node, and the name of that node
    is [Unknown]. *)
Theorem untitled_record_is_Unknown (doc : Dom.Document) (index : nat)
    (el : Dom.Node) :
  Dom.querySelectorAll "node" doc !! index = Some el ->
  Spec.before_space (Spec.url_text el) <> EmptyString ->
  (Dom.querySelector "title" (Dom.children el) = None
   \/ exists t, Dom.querySelector "title" (Dom.children el) = Some t
                /\ Dom.textContent t = EmptyString) ->
  In {| id := "node-" ++ Str.of_nat index;
        name := "Unknown";
        tapEndpoint := Spec.with_slash (Spec.before_space (Spec.url_text el)) |}
     (RegistryLive.parseNodesXml doc).
Proof.
  intros Hl Hu Ht. rewrite parseNodesXml_eq.
  apply in_records_from. exists index, el. split; [exact Hl|].
  simpl. destruct (record_node_cases index el) as [Hsome _].
  rewrite (Hsome Hu).
  assert (Hempty : Spec.title_text el = EmptyString).
  { unfold Spec.title_text. destruct Ht as [-> | (t & -> & Ht)]; auto. }
  rewrite Hempty. simpl. auto.
Qed.

Lemma untitled_record_is_Unknown_witness :
  In (mkNode "node-2" "Unknown" "https://c.org/tap/")
     (RegistryLive.parseNodesXml Sample.mixed)
  /\ In (mkNode "node-3" "Unknown" "https://d.org/tap/")
       (RegistryLive.parseNodesXml Sample.mixed).
Proof.
  split.
  - apply (untitled_record_is_Unknown Sample.mixed 2
             (Sample.untitled "https://c.org/tap/"));
      [reflexivity | discriminate | left; reflexivity].
  - apply (untitled_record_is_Unknown Sample.mixed 3
             (Sample.record "" "https://d.org/tap"));
      [reflexivity | discriminate | right].
    exists (Dom.Element "title" [Dom.Text ""]). split; reflexivity.
Defined.

(** ** Fan-out coordinator *)

Lemma collect_None {A} (vals : list (option A)) (i : nat) :
  vals !! i = Some None -> Coordinator.collect vals = None.
Proof.
  revert i. induction vals as [|v rest IH]; intros i Hi; [discriminate Hi|].
  destruct i as [|i]; simpl in Hi.
  - injection Hi as ->. reflexivity.
  - simpl. destruct v; [|reflexivity].
    rewrite (IH i Hi). reflexivity.
Qed.

Lemma collect_fmap_Some {A} (rs : list A) :
  Coordinator.collect (Some <$> rs) = Some rs.
Proof.
  induction rs as [|r rest IH]; [reflexivity|].
  rewrite fmap_cons. cbn [Coordinator.collect]. rewrite IH. reflexivity.
Qed.

Lemma omap_seq_imap {A B} (f : nat -> A -> B) (l : list A) :
  omap (fun i => f i <$> l !! i) (seq 0 (length l)) = imap f l.
Proof.
  induction l as [|x l IH] using rev_ind; [reflexivity|].
  rewrite length_app, Nat.add_comm. simpl length.
  rewrite seq_S, omap_app, imap_app. simpl.
  rewrite list_lookup_middle by reflexivity. simpl.
  rewrite Nat.add_0_r. f_equal.
  rewrite <- IH. apply list_omap_ext.
  apply Forall_Forall2_diag, Forall_forall. intros i Hi.
  apply elem_of_seq in Hi.
  rewrite lookup_app_l by lia. reflexivity.
Qed.

Section CoordinatorFacts.
Context {num : Type} `{NumberToString num} {Sink : Type}.
Variable nodes : list VamdcNode.
Variable params : QueryParams num.
Variable onProgress : Sink -> NodeResponse -> Sink * option Thrown.
Variable probes : nat -> Coordinator.Probe.
Variable s0 : Sink.
Hypothesis sink_ok : Spec.sink_never_throws onProgress.

Lemma queryNode_probe_result (node : VamdcNode) (p : Coordinator.Probe) :
  Prober.queryNode (Coordinator.network p) node params (Coordinator.signal_of p)
  = Ok (Spec.probe_result params node p).
Proof.
  unfold Spec.probe_result.
  destruct (queryNode_total (Coordinator.network p) node params
              (Coordinator.signal_of p)) as (r & -> & _).
  reflexivity.
Qed.

Lemma probe_result_nodeId (node : VamdcNode) (p : Coordinator.Probe) :
  nodeId (Spec.probe_result params node p) = id node.
Proof.
  unfold Spec.probe_result.
  destruct (queryNode_total (Coordinator.network p) node params
              (Coordinator.signal_of p)) as (r & -> & Hid & _).
  exact Hid.
Qed.

Lemma task_fulfils (node : VamdcNode) (p : Coordinator.Probe) (s : Sink) :
  Coordinator.task params onProgress node p s
  = (Ok (Spec.probe_result params node p),
     fst (onProgress s (Spec.probe_result params node p)),
     [Spec.probe_result params node p]).
Proof.
  unfold Coordinator.task. rewrite queryNode_probe_result.
  pose proof (sink_ok s (Spec.probe_result params node p)) as Hs.
  destruct (onProgress s (Spec.probe_result params node p)) as [s' thrown].
  simpl in Hs. subst thrown. reflexivity.
Qed.

Lemma start_round_state :
  Spec.round_state nodes params probes []
    (Coordinator.start nodes s0).
Proof.
  unfold Spec.round_state, Coordinator.start. simpl.
  rewrite !length_replicate.
  repeat apply conj; try reflexivity.
  intros i node Hnode. apply lookup_lt_Some in Hnode.
  split; apply lookup_replicate_2; exact Hnode.
Qed.

Lemma settle_round_state (settled : list nat) (i : nat)
    (st : Coordinator.State (Sink := Sink)) :
  Spec.round_state nodes params probes settled st ->
  i ∉ settled -> i < length nodes ->
  Spec.round_state nodes params probes (settled ++ [i])
    (Coordinator.settle nodes params onProgress probes st i).
Proof.
  intros (Hlp & Hlv & Hat & Hall & Hcalls) Hnew Hlt.
  destruct (lookup_lt_is_Some_2 nodes i Hlt) as [node Hnode].
  destruct (Hat i node Hnode) as [Hp Hv].
  rewrite bool_decide_eq_false_2 in Hp, Hv by exact Hnew.
  unfold Coordinator.settle. rewrite Hp, Hnode, task_fulfils.
  rewrite (collect_None _ _ Hv) in Hall.
  unfold Spec.round_state. simpl.
  rewrite !length_insert. repeat apply conj; try assumption.
  - intros j nodej Hj.
    destruct (decide (j = i)) as [->|Hne].
    + rewrite Hnode in Hj. injection Hj as <-.
      rewrite !list_lookup_insert_eq by lia.
      rewrite bool_decide_eq_true_2 by (apply elem_of_app; right; constructor).
      split; reflexivity.
    + rewrite !list_lookup_insert_ne by congruence.
      destruct (Hat j nodej Hj) as [Hpj Hvj]. rewrite Hpj, Hvj.
      assert (Hiff : bool_decide (j ∈ (settled ++ [i])%list) = bool_decide (j ∈ settled)).
      { apply bool_decide_ext. rewrite elem_of_app, list_elem_of_singleton.
        tauto. }
      rewrite Hiff. split; reflexivity.
  - rewrite Hall.
    destruct (Coordinator.collect _); reflexivity.
  - rewrite omap_app, Hcalls. f_equal.
    cbn [omap list_omap]. unfold Spec.result_at at 1.
    rewrite Hnode. reflexivity.
Qed.

Lemma run_round_state (schedule : list nat) :
  NoDup schedule ->
  (forall i, i ∈ schedule -> i < length nodes) ->
  Spec.round_state nodes params probes schedule
    (Coordinator.queryAllNodes nodes params onProgress probes s0 schedule).
Proof.
  induction schedule as [|i done IH] using rev_ind; intros Hnd Hlt.
  - apply start_round_state.
  - unfold Coordinator.queryAllNodes. rewrite fold_left_app. simpl.
    apply NoDup_app in Hnd as (Hnd & Hdisj & _).
    apply settle_round_state.
    + apply IH; [exact Hnd|].
      intros j Hj. apply Hlt, elem_of_app. left. exact Hj.
    + intros Hin. apply (Hdisj i Hin). constructor.
    + apply Hlt, elem_of_app. right. constructor.
Qed.

Lemma complete_values (schedule : list nat) (st : Coordinator.State (Sink := Sink)) :
  Spec.round_state nodes params probes schedule st ->
  (forall i, i < length nodes -> i ∈ schedule) ->
  Coordinator.values st = Some <$> Spec.results nodes params probes.
Proof.
  intros (_ & Hlv & Hat & _) Hall. apply list_eq. intros i.
  unfold Spec.results. rewrite list_lookup_fmap, list_lookup_imap.
  destruct (nodes !! i) as [node|] eqn:Hnode; simpl.
  - destruct (Hat i node Hnode) as [_ Hv]. rewrite Hv.
    rewrite bool_decide_eq_true_2; [reflexivity|].
    apply Hall. apply lookup_lt_Some in Hnode. exact Hnode.
  - apply lookup_ge_None. rewrite Hlv. apply lookup_ge_None. exact Hnode.
Qed.

Lemma incomplete_pending (schedule : list nat) (st : Coordinator.State (Sink := Sink))
    (i : nat) :
  Spec.round_state nodes params probes schedule st ->
  i < length nodes -> i ∉ schedule ->
  Coordinator.all st = Coordinator.Pending.
Proof.
  intros (_ & _ & Hat & Hall & _) Hlt Hnot.
  destruct (lookup_lt_is_Some_2 nodes i Hlt) as [node Hnode].
  destruct (Hat i node Hnode) as [_ Hv].
  rewrite bool_decide_eq_false_2 in Hv by exact Hnot.
  rewrite Hall, (collect_None _ _ Hv). reflexivity.
Qed.

Lemma schedule_facts (schedule : list nat) :
  schedule ≡ₚ seq 0 (length nodes) ->
  NoDup schedule /\ (forall i, i ∈ schedule <-> i < length nodes).
Proof.
  intros Hperm. split.
  - rewrite Hperm. apply NoDup_seq.
  - intros i. rewrite Hperm, elem_of_seq. lia.
Qed.

Lemma run_complete (schedule : list nat) :
  schedule ≡ₚ seq 0 (length nodes) ->
  let st := Coordinator.queryAllNodes nodes params onProgress probes s0
              schedule in
  Coordinator.all st = Coordinator.Fulfilled (Spec.results nodes params probes)
  /\ Coordinator.calls st = omap (Spec.result_at nodes params probes) schedule
  /\ Coordinator.calls st ≡ₚ Spec.results nodes params probes.
Proof.
  intros Hperm st. destruct (schedule_facts _ Hperm) as [Hnd Hin].
  assert (Hst : Spec.round_state nodes params probes schedule st).
  { apply run_round_state; [exact Hnd|]. intros i. apply Hin. }
  assert (Hvals := complete_values _ _ Hst (fun i => proj2 (Hin i))).
  destruct Hst as (_ & _ & _ & Hall & Hcalls).
  rewrite Hvals, collect_fmap_Some in Hall.
  split; [exact Hall|]. split; [exact Hcalls|].
  rewrite Hcalls, Hperm. unfold Spec.results.
  rewrite <- omap_seq_imap. reflexivity.
Qed.


End CoordinatorFacts.

Lemma nodes3_ids_distinct : NoDup (id <$> Sample.nodes3).
Proof.
  repeat (apply NoDup_cons_2;
          [intros Hin;
           repeat (apply elem_of_cons in Hin as [Hin|Hin]; [discriminate Hin|]);
           inversion Hin |]).
  apply NoDup_nil_2.
Qed.

Lemma schedule_201 : [2; 0; 1] ≡ₚ seq 0 (length Sample.nodes3).
Proof.
  simpl. etrans; [apply perm_swap|]. apply perm_skip, perm_swap.
Qed.

Lemma counter_never_throws : Spec.sink_never_throws Sample.counter.
Proof. intros s r. reflexivity. Qed.

(** A sink that throws is outside the contract: the promise of the round
    is then rejected with what the sink threw. *)
Example throwing_sink_rejects :
  Coordinator.all
    (Coordinator.queryAllNodes Sample.nodes3 Sample.params Sample.throwing
       Sample.probes 0 [1])
  = Coordinator.Rejected (ThrownError "TypeError" "results is undefined").
Proof. reflexivity. Qed.

(** * Further properties *)

(** ** Query encoder *)

Lemma append_inv_head (p a b : string) : p ++ a = p ++ b -> a = b.
Proof.
  induction p as [|c p IH]; simpl; [tauto|].
  intros [= Heq]. apply IH, Heq.
Qed.

Lemma hex_digit_unreserved (c : ascii) :
  Encoder.uri_unreserved (Encoder.hex_digit (nat_of_ascii c / 16)) = true
  /\ Encoder.uri_unreserved (Encoder.hex_digit (nat_of_ascii c mod 16)) = true.
Proof.
  destruct c as [b0 b1 b2 b3 b4 b5 b6 b7].
  destruct b0, b1, b2, b3, b4, b5, b6, b7; vm_compute; split; reflexivity.
Qed.

Lemma percent_decode_percent (c : ascii) (rest : string) :
  Notions.percent_decode (Encoder.percent c ++ rest)
  = String c (Notions.percent_decode rest).
Proof.
  unfold Encoder.percent.
  cbn [String.append Notions.percent_decode].
  change (Ascii.eqb "%" "%") with true. cbv iota.
  f_equal.
  destruct c as [b0 b1 b2 b3 b4 b5 b6 b7].
  destruct b0, b1, b2, b3, b4, b5, b6, b7; vm_compute; reflexivity.
Qed.

Lemma percent_decode_encode (s : string) :
  Notions.percent_decode (Encoder.encodeURIComponent s) = s.
Proof.
  induction s as [|c rest IH]; [reflexivity|].
  cbn [Encoder.encodeURIComponent].
  destruct (Encoder.uri_unreserved c) eqn:Hu.
  - cbn [Notions.percent_decode].
    destruct (Ascii.eqb c "%") eqn:Hc.
    + apply Ascii.eqb_eq in Hc. subst c. vm_compute in Hu. discriminate Hu.
    + rewrite IH. reflexivity.
  - rewrite percent_decode_percent, IH. reflexivity.
Qed.

Lemma encode_alphabet (s : string) :
  Forall (fun c => Encoder.uri_unreserved c = true \/ c = "%"%char)
    (list_ascii_of_string (Encoder.encodeURIComponent s)).
Proof.
  induction s as [|c rest IH]; [constructor|].
  cbn [Encoder.encodeURIComponent].
  destruct (Encoder.uri_unreserved c) eqn:Hu.
  - constructor; [left; exact Hu | exact IH].
  - destruct (hex_digit_unreserved c) as [Hh Hl].
    unfold Encoder.percent. cbn [String.append list_ascii_of_string].
    constructor; [right; reflexivity|].
    constructor; [left; exact Hh|].
    constructor; [left; exact Hl | exact IH].
Qed.

(** X1: in a probe URL, what follows [QUERY=] is made of unreserved
    characters and [%] only, whatever the query text is: the query can
    neither end the parameter nor start another one. *)
Theorem probe_url_query_is_escaped (tapEndpoint queryString : string) :
  exists tail,
    Encoder.buildDownloadUrl tapEndpoint queryString
    = tapEndpoint ++ "sync?LANG=VSS2&REQUEST=doQuery&FORMAT=XSAMS&QUERY=" ++ tail
    /\ Forall (fun c => Encoder.uri_unreserved c = true \/ c = "%"%char)
         (list_ascii_of_string tail)
    /\ Notions.contains_char "&" tail = false
    /\ Notions.contains_char "#" tail = false
    /\ Notions.contains_char " " tail = false.
Proof.
  exists (Encoder.encodeURIComponent queryString).
  split; [reflexivity|]. split; [apply encode_alphabet|].
  assert (Hno : forall d, Encoder.uri_unreserved d = false -> d <> "%"%char ->
                  Notions.contains_char d
                    (Encoder.encodeURIComponent queryString) = false).
  { intros d Hd Hp. pose proof (encode_alphabet queryString) as Hall.
    induction (Encoder.encodeURIComponent queryString) as [|a rest IH];
      [reflexivity|].
    cbn [list_ascii_of_string] in Hall. inversion Hall as [|? ? Ha Hrest]; subst.
    cbn [Notions.contains_char]. rewrite (IH Hrest).
    destruct (Ascii.eqb a d) eqn:Had; [|reflexivity].
    apply Ascii.eqb_eq in Had. subst a.
    destruct Ha as [Ha | Ha]; congruence. }
  repeat split; apply Hno; (reflexivity || discriminate).
Qed.

(** X2: the query text can be read back from a probe URL by
    percent-decoding what follows [QUERY=]; so two different query
    texts never give the same probe URL for a node. *)
Theorem probe_url_round_trip (tapEndpoint queryString : string) :
  (exists tail,
     Encoder.buildDownloadUrl tapEndpoint queryString
     = tapEndpoint ++ "sync?LANG=VSS2&REQUEST=doQuery&FORMAT=XSAMS&QUERY=" ++ tail
     /\ Notions.percent_decode tail = queryString)
  /\ (forall other,
        Encoder.buildDownloadUrl tapEndpoint other
        = Encoder.buildDownloadUrl tapEndpoint queryString ->
        other = queryString).
Proof.
  split.
  - exists (Encoder.encodeURIComponent queryString).
    split; [reflexivity | apply percent_decode_encode].
  - intros other Heq. unfold Encoder.buildDownloadUrl in Heq.
    apply append_inv_head in Heq. apply append_inv_head in Heq.
    rewrite <- (percent_decode_encode other), Heq.
    apply percent_decode_encode.
Qed.

(** ** Node prober *)

(** X3: whatever happens to the request, the result of [queryNode] has
    one of two shapes: status [success] with the three statistics, the
    probe URL as [downloadUrl] and no error text; or status [error] or
    [timeout] with an error text and neither statistics nor
    [downloadUrl]. *)
Theorem queryNode_result_shape {num : Type} `{NumberToString num}
    (network : string -> result (Fetch.Response unit))
    (node : VamdcNode) (params : QueryParams num)
    (signal : Fetch.AbortSignal) :
  exists r,
    Prober.queryNode network node params signal = Ok r
    /\ ((status r = Status.success
         /\ is_Some (numSpecies r) /\ is_Some (numStates r)
         /\ is_Some (numTransitions r)
         /\ downloadUrl r = Some (Spec.probe_url node params)
         /\ error r = None)
        \/ ((status r = Status.error \/ status r = Status.timeout)
            /\ numSpecies r = None /\ numStates r = None
            /\ numTransitions r = None /\ downloadUrl r = None
            /\ is_Some (error r))).
Proof.
  destruct (Fetch.fetch network (Spec.probe_url node params) signal)
    as [response|e] eqn:Hf.
  - rewrite (queryNode_resolved _ _ _ _ _ Hf).
    destruct (Fetch.ok response); eexists; (split; [reflexivity|]).
    + left. simpl. repeat split; eauto.
    + right. simpl. repeat split; eauto.
  - rewrite (queryNode_rejected _ _ _ _ _ Hf).
    destruct e as [ename emessage|];
      [destruct (String.eqb ename "AbortError")|];
      eexists; (split; [reflexivity|]); right; simpl; repeat split; eauto.
Qed.

(** X4: the status of the result tells what happened to the request:
    it is [success] exactly when the request was answered with a status
    from 200 to 299, and [timeout] exactly when the request was
    rejected with an error named [AbortError]. *)
Theorem queryNode_status_meaning {num : Type} `{NumberToString num}
    (network : string -> result (Fetch.Response unit))
    (node : VamdcNode) (params : QueryParams num)
    (signal : Fetch.AbortSignal) :
  exists r,
    Prober.queryNode network node params signal = Ok r
    /\ (status r = Status.success <->
        exists response,
          Fetch.fetch network (Spec.probe_url node params) signal = Ok response
          /\ Fetch.ok response = true)
    /\ (status r = Status.timeout <->
        exists msg,
          Fetch.fetch network (Spec.probe_url node params) signal
          = Throw (ThrownError "AbortError" msg)).
Proof.
  destruct (Fetch.fetch network (Spec.probe_url node params) signal)
    as [response|e] eqn:Hf.
  - rewrite (queryNode_resolved _ _ _ _ _ Hf).
    destruct (Fetch.ok response) eqn:Hok; eexists;
      (split; [reflexivity|]); simpl.
    + split; split; try discriminate; try (intros _; reflexivity).
      * intros _. exists response. auto.
      * intros (msg & Heq). discriminate Heq.
    + split; split; try discriminate; try (intros _; reflexivity).
      * intros (response' & Heq & Hok'). injection Heq as <-. congruence.
      * intros (msg & Heq). discriminate Heq.
  - rewrite (queryNode_rejected _ _ _ _ _ Hf).
    destruct e as [ename emessage|].
    + destruct (String.eqb ename "AbortError") eqn:Hn;
        eexists; (split; [reflexivity|]); simpl; split; split;
        try discriminate; try (intros _; reflexivity).
      * intros (response & Heq & _). discriminate Heq.
      * intros _. apply String.eqb_eq in Hn. subst ename. eauto.
      * intros (response & Heq & _). discriminate Heq.
      * intros (msg & Heq). injection Heq as -> _.
        rewrite String.eqb_refl in Hn. discriminate Hn.
    + eexists; (split; [reflexivity|]); simpl; split; split;
        try discriminate; try (intros _; reflexivity).
      * intros (response & Heq & _). discriminate Heq.
      * intros (msg & Heq). discriminate Heq.
Qed.

Lemma digits_stop (rest : string) (acc : option Z) :
  Notions.starts_with_digit rest = false -> ParseInt.digits rest acc = acc.
Proof.
  destruct rest as [|c r]; [reflexivity|].
  unfold Notions.starts_with_digit, Encoder.in_range. intros Hc.
  cbn [ParseInt.digits]. unfold ParseInt.digit_value. rewrite Hc. reflexivity.
Qed.

Lemma digits_uint (d : Decimal.uint) (rest : string) (acc : nat) :
  Notions.starts_with_digit rest = false ->
  ParseInt.digits (NilEmpty.string_of_uint d ++ rest) (Some (Z.of_nat acc))
  = Some (Z.of_nat (Nat.of_uint_acc d acc)).
Proof.
  intros Hrest. revert acc.
  induction d as [|d IH|d IH|d IH|d IH|d IH|d IH|d IH|d IH|d IH|d IH];
    intros acc;
    [ apply digits_stop, Hrest | .. ];
    cbn [NilEmpty.string_of_uint String.append ParseInt.digits Nat.of_uint_acc];
    rewrite <- IH; f_equal; f_equal;
    rewrite ?Nat2Z.inj_succ, Nat.tail_mul_spec, Nat2Z.inj_mul;
    vm_compute (Z.of_nat 10); vm_compute (Z.of_nat (_ - 48)); lia.
Qed.

Lemma parseInt_uint (d : Decimal.uint) (rest : string) :
  d <> Decimal.Nil ->
  Notions.starts_with_digit rest = false ->
  ParseInt.parseInt (NilEmpty.string_of_uint d ++ rest)
  = Int (Z.of_nat (Nat.of_uint d))
  /\ Str.truthy (NilEmpty.string_of_uint d ++ rest) = true.
Proof.
  intros Hd Hrest. split; [|destruct d; [congruence | reflexivity ..]].
  pose proof (digits_uint d rest 0 Hrest) as Hdigits.
  unfold Nat.of_uint.
  destruct d as [|d|d|d|d|d|d|d|d|d|d]; [congruence | ..];
    cbn [NilEmpty.string_of_uint String.append] in *;
    set (t := NilEmpty.string_of_uint d ++ rest) in *;
    unfold ParseInt.parseInt;
    match goal with
    | |- context [ParseInt.trimStart (String ?c t)] =>
        assert (Htrim : ParseInt.trimStart (String c t) = String c t)
          by (destruct t as [|c2 [|c3 r3]]; reflexivity);
        rewrite Htrim
    end;
    cbv beta iota zeta;
    cbn [ParseInt.digits] in *;
    match type of Hdigits with
    | ?lhs = _ =>
        match goal with
        | |- context [match ?x with Some _ => _ | None => _ end] =>
            change x with lhs; rewrite Hdigits
        end
    end;
    f_equal; lia.
Qed.

Lemma parseInt_numeral (n : nat) (rest : string) :
  Notions.starts_with_digit rest = false ->
  ParseInt.parseInt (Str.of_nat n ++ rest) = Int (Z.of_nat n)
  /\ Str.truthy (Str.of_nat n ++ rest) = true.
Proof.
  intros Hrest. unfold Str.of_nat.
  pose proof (to_uint_not_Nil n) as Hd.
  pose proof (parseInt_uint (Nat.to_uint n) rest Hd Hrest) as Hp.
  rewrite DecimalNat.Unsigned.of_to in Hp.
  destruct (Nat.to_uint n); [congruence | exact Hp ..].
Qed.

Lemma getHeader_numeral (h : Fetch.Headers) (header : string) (n : nat)
    (rest : string) :
  Fetch.get h header = Some (Str.of_nat n ++ rest) ->
  Notions.starts_with_digit rest = false ->
  Prober.getHeader h header = Int (Z.of_nat n).
Proof.
  intros Hg Hrest. unfold Prober.getHeader. rewrite Hg.
  destruct (parseInt_numeral n rest Hrest) as [Hp Ht].
  rewrite Ht. exact Hp.
Qed.

Lemma append_empty_r (s : string) : s ++ EmptyString = s.
Proof. induction s as [|c s IH]; simpl; congruence. Qed.

(** X5: a statistics header whose value starts with a decimal count of
    at most 2^53, followed by nothing or by text that does not start
    with a digit, is read as that count.  (Up to 2^53 every count is a
    Number; beyond, [parseInt] rounds.) *)
Theorem statistic_reads_leading_count (h : Fetch.Headers) (header : string)
    (n : nat) (rest : string) :
  (Z.of_nat n <= 2 ^ 53)%Z ->
  Fetch.get h header = Some (Str.of_nat n ++ rest) ->
  Notions.starts_with_digit rest = false ->
  Prober.getHeader h header = Int (Z.of_nat n).
Proof. intros _. apply getHeader_numeral. Qed.

Lemma statistic_reads_leading_count_witness :
  Prober.getHeader [("VAMDC-COUNT-SPECIES", "12 species")]
    "VAMDC-COUNT-SPECIES" = Int 12.
Proof.
  apply (statistic_reads_leading_count
           [("VAMDC-COUNT-SPECIES", "12 species")] "VAMDC-COUNT-SPECIES"
           12 " species"); [apply Z.leb_le | ..]; reflexivity.
Defined.

(** X6: when a statistics header occurs several times, under whatever
    spelling of its name, and its first occurrence is a count of at
    most 2^53, the statistic is that count. *)
Theorem statistic_first_header_wins (h : Fetch.Headers) (header k : string)
    (n : nat) (others : list (string * string)) :
  (Z.of_nat n <= 2 ^ 53)%Z ->
  List.filter (Fetch.name_matches header) h = (k, Str.of_nat n) :: others ->
  Prober.getHeader h header = Int (Z.of_nat n).
Proof.
  intros _ Hf.
  destruct others as [|o others'].
  - apply (getHeader_numeral h header n EmptyString); [|reflexivity].
    unfold Fetch.get. rewrite Hf. simpl. rewrite append_empty_r. reflexivity.
  - apply (getHeader_numeral h header n
             (", " ++ Str.join ", " (List.map snd (o :: others'))));
      [|reflexivity].
    unfold Fetch.get. rewrite Hf. reflexivity.
Qed.

Lemma statistic_first_header_wins_witness :
  Prober.getHeader
    [("vamdc-count-states", "40"); ("Server", "1"); ("VAMDC-COUNT-STATES", "7")]
    "VAMDC-COUNT-STATES" = Int 40.
Proof.
  apply (statistic_first_header_wins _ _ "vamdc-count-states" 40
           [("VAMDC-COUNT-STATES", "7")]); [apply Z.leb_le |]; reflexivity.
Defined.

(** ** Node directory resolver *)

Lemma before_space_clean (s : string) :
  Notions.contains_char " " (Spec.before_space s) = false.
Proof.
  induction s as [|c s IH]; [reflexivity|].
  simpl. destruct (Ascii.eqb c " ") eqn:Hc; [reflexivity|].
  simpl. rewrite Hc. exact IH.
Qed.

Lemma contains_char_append (c : ascii) (a b : string) :
  Notions.contains_char c (a ++ b)
  = Notions.contains_char c a || Notions.contains_char c b.
Proof.
  induction a as [|x a IH]; [reflexivity|].
  simpl. rewrite IH. apply orb_assoc.
Qed.

Lemma with_slash_clean (u : string) :
  Notions.contains_char " " (Spec.with_slash u)
  = Notions.contains_char " " u.
Proof.
  unfold Spec.with_slash. destruct (Str.endsWith_char u "/"); [reflexivity|].
  rewrite contains_char_append. simpl. apply orb_false_r.
Qed.

Lemma record_node_kept (index : nat) (el : Dom.Node) :
  Forall (fun n => name n <> EmptyString
                   /\ tapEndpoint n <> EmptyString
                   /\ Notions.contains_char " " (tapEndpoint n) = false)
    (Spec.record_node index el)
  /\ length (Spec.record_node index el) <= 1.
Proof.
  unfold Spec.record_node.
  destruct (Str.truthy (Spec.before_space (Spec.url_text el))) eqn:Hu;
    [|split; [constructor | simpl; lia]].
  split; [|simpl; lia]. constructor; [|constructor]. simpl.
  repeat split.
  - destruct (Str.truthy (Spec.title_text el)) eqn:Ht; [|discriminate].
    intros Heq. rewrite Heq in Ht. discriminate Ht.
  - intros Heq. pose proof (with_slash_ends
                              (Spec.before_space (Spec.url_text el))) as He.
    rewrite Heq in He. discriminate He.
  - rewrite with_slash_clean. apply before_space_clean.
Qed.

Lemma parseNodesXml_kept (doc : Dom.Document) :
  Forall (fun n => name n <> EmptyString
                   /\ tapEndpoint n <> EmptyString
                   /\ Notions.contains_char " " (tapEndpoint n) = false)
    (RegistryLive.parseNodesXml doc)
  /\ length (RegistryLive.parseNodesXml doc)
     <= length (Dom.querySelectorAll "node" doc).
Proof.
  rewrite parseNodesXml_eq.
  generalize 0 as index.
  induction (Dom.querySelectorAll "node" doc) as [|el rest IH];
    intros index; simpl.
  - split; [constructor | lia].
  - destruct (record_node_kept index el) as [Hk Hl].
    destruct (IH (S index)) as [IHk IHl].
    split; [apply Forall_app; auto|].
    rewrite length_app. lia.
Qed.

(** X7: every node of a live resolution has a name and an endpoint that
    are not empty, and an endpoint without any space; and a resolution
    never gives more nodes than the document has records. *)
Theorem parseNodesXml_nodes_are_usable (doc : Dom.Document) :
  Forall (fun n => name n <> EmptyString
                   /\ tapEndpoint n <> EmptyString
                   /\ Notions.contains_char " " (tapEndpoint n) = false)
    (RegistryLive.parseNodesXml doc)
  /\ length (RegistryLive.parseNodesXml doc)
     <= length (Dom.querySelectorAll "node" doc).
Proof. apply parseNodesXml_kept. Qed.

Lemma before_space_id (u : string) :
  Notions.contains_char " " u = false -> Spec.before_space u = u.
Proof.
  induction u as [|c u IH]; [reflexivity|].
  simpl. destruct (Ascii.eqb c " "); [discriminate|].
  simpl. intros Hu. rewrite (IH Hu). reflexivity.
Qed.

Lemma record_texts (t u : string) :
  Spec.title_text (Sample.record t u) = t
  /\ Spec.url_text (Sample.record t u) = u.
Proof.
  unfold Spec.title_text, Spec.url_text, Sample.record.
  split; cbn; apply append_empty_r.
Qed.

Lemma record_node_of_node (index : nat) (n : VamdcNode) :
  name n <> EmptyString ->
  Notions.contains_char " " (tapEndpoint n) = false ->
  Str.endsWith_char (tapEndpoint n) "/" = true ->
  Spec.record_node index (Sample.record (name n) (tapEndpoint n))
  = [mkNode ("node-" ++ Str.of_nat index) (name n) (tapEndpoint n)].
Proof.
  intros Hname Hclean Hends.
  unfold Spec.record_node.
  destruct (record_texts (name n) (tapEndpoint n)) as [-> ->].
  rewrite (before_space_id _ Hclean).
  unfold Spec.with_slash. rewrite Hends.
  rewrite (truthy_true _ Hname).
  destruct (tapEndpoint n); [discriminate Hends | reflexivity].
Qed.

Lemma querySelectorAll_document_of (ns : list VamdcNode) :
  Dom.querySelectorAll "node" (Notions.document_of ns)
  = List.map (fun n => Sample.record (name n) (tapEndpoint n)) ns.
Proof.
  unfold Notions.document_of, Sample.registry, Dom.querySelectorAll.
  cbn [List.flat_map Dom.elements]. rewrite app_nil_r.
  cbn [List.filter Dom.is_named].
  change (String.eqb "nodes" "node") with false. cbv iota.
  induction ns as [|n ns IH]; [reflexivity|].
  cbn [List.map List.flat_map]. rewrite List.filter_app, IH.
  reflexivity.
Qed.

Lemma records_from_of_nodes (ns : list VamdcNode) (index : nat) :
  Forall (fun n => name n <> EmptyString
                   /\ Notions.contains_char " " (tapEndpoint n) = false
                   /\ Str.endsWith_char (tapEndpoint n) "/" = true) ns ->
  Spec.records_from index
    (List.map (fun n => Sample.record (name n) (tapEndpoint n)) ns)
  = imap (fun i n => mkNode ("node-" ++ Str.of_nat (index + i)) (name n)
                       (tapEndpoint n)) ns.
Proof.
  intros Hns. revert index.
  induction Hns as [|n ns (Hname & Hclean & Hends) _ IH]; intros index;
    [reflexivity|].
  cbn [List.map Spec.records_from imap].
  rewrite (record_node_of_node index n Hname Hclean Hends), IH.
  rewrite Nat.add_0_r. cbn [app]. f_equal.
  apply imap_ext. intros i x _. simpl. rewrite Nat.add_succ_r. reflexivity.
Qed.

(** X8: a live resolution is stable.  Resolving the registry document
    that lists the resolved nodes, each with its name and its endpoint,
    gives the same names and endpoints again, in the same order, with
    the ids [node-0], [node-1] and so on. *)
Theorem resolution_is_stable (doc : Dom.Document) :
  RegistryLive.parseNodesXml
    (Notions.document_of (RegistryLive.parseNodesXml doc))
  = imap (fun i n => mkNode ("node-" ++ Str.of_nat i) (name n) (tapEndpoint n))
      (RegistryLive.parseNodesXml doc).
Proof.
  rewrite (parseNodesXml_eq (Notions.document_of _)).
  rewrite querySelectorAll_document_of.
  apply (records_from_of_nodes _ 0).
  destruct (parseNodesXml_kept doc) as [Hkept _].
  pose proof (records_from_ends (Dom.querySelectorAll "node" doc) 0) as Hends.
  rewrite <- parseNodesXml_eq in Hends.
  rewrite !Forall_forall in *. intros n Hn.
  destruct (Hkept n Hn) as (Hname & _ & Hclean).
  auto.
Qed.

(** ** Fan-out coordinator, for any sink *)

Section AnySink.
Context {num : Type} `{NumberToString num} {Sink : Type}.
Variable nodes : list VamdcNode.
Variable params : QueryParams num.
Variable onProgress : Sink -> NodeResponse -> Sink * option Thrown.
Variable probes : nat -> Coordinator.Probe.
Variable s0 : Sink.

Lemma task_effect (node : VamdcNode) (p : Coordinator.Probe) (s : Sink) :
  exists outcome,
    Coordinator.task params onProgress node p s
    = (outcome, fst (onProgress s (Spec.probe_result params node p)),
       [Spec.probe_result params node p])
    /\ match snd (onProgress s (Spec.probe_result params node p)) with
       | Some e => outcome = Throw e
       | None => outcome = Ok (Spec.probe_result params node p)
       end.
Proof.
  unfold Coordinator.task. rewrite queryNode_probe_result.
  destruct (onProgress s (Spec.probe_result params node p)) as [s' [e|]];
    eexists; split; reflexivity.
Qed.

Lemma settle_effect (st : Coordinator.State (Sink := Sink)) (i : nat) :
  (Coordinator.settle nodes params onProgress probes st i = st
   /\ (Coordinator.promises st !! i <> Some Coordinator.Pending
       \/ nodes !! i = None))
  \/ exists node r,
       nodes !! i = Some node
       /\ Coordinator.promises st !! i = Some Coordinator.Pending
       /\ r = Spec.probe_result params node (probes i)
       /\ Coordinator.calls
            (Coordinator.settle nodes params onProgress probes st i)
          = (Coordinator.calls st ++ [r])%list
       /\ Coordinator.sink
            (Coordinator.settle nodes params onProgress probes st i)
          = fst (onProgress (Coordinator.sink st) r)
       /\ (exists x,
             Coordinator.promises
               (Coordinator.settle nodes params onProgress probes st i)
             = <[i := x]> (Coordinator.promises st)
             /\ x <> Coordinator.Pending)
       /\ match snd (onProgress (Coordinator.sink st) r) with
          | Some e =>
              Coordinator.all
                (Coordinator.settle nodes params onProgress probes st i)
              = match Coordinator.all st with
                | Coordinator.Pending => Coordinator.Rejected e
                | a => a
                end
          | None => True
          end.
Proof.
  unfold Coordinator.settle.
  destruct (Coordinator.promises st !! i) as [[| |]|] eqn:Hp;
    try (left; split; [reflexivity | left; congruence]).
  destruct (nodes !! i) as [node|] eqn:Hn;
    [|left; split; [reflexivity | right; reflexivity]].
  right. exists node, (Spec.probe_result params node (probes i)).
  destruct (task_effect node (probes i) (Coordinator.sink st))
    as (outcome & -> & Hout).
  destruct (snd (onProgress (Coordinator.sink st)
                   (Spec.probe_result params node (probes i))))
    as [e|]; subst outcome; simpl;
    repeat apply conj; try reflexivity; eexists; split;
    try reflexivity; discriminate.
Qed.

Lemma run_snoc (schedule : list nat) (i : nat) :
  Coordinator.queryAllNodes nodes params onProgress probes s0
    (schedule ++ [i])%list
  = Coordinator.settle nodes params onProgress probes
      (Coordinator.queryAllNodes nodes params onProgress probes s0 schedule) i.
Proof. unfold Coordinator.queryAllNodes. apply fold_left_app. Qed.

Lemma run_sink_fold (schedule : list nat) :
  Coordinator.sink
    (Coordinator.queryAllNodes nodes params onProgress probes s0 schedule)
  = List.fold_left (fun s r => fst (onProgress s r))
      (Coordinator.calls
         (Coordinator.queryAllNodes nodes params onProgress probes s0 schedule))
      s0.
Proof.
  induction schedule as [|i done IH] using rev_ind; [reflexivity|].
  rewrite run_snoc.
  destruct (settle_effect
              (Coordinator.queryAllNodes nodes params onProgress probes s0 done)
              i) as [[-> _] | (node & r & _ & _ & _ & -> & -> & _)];
    [exact IH|].
  rewrite fold_left_app, <- IH. reflexivity.
Qed.

Lemma run_calls (schedule : list nat) :
  NoDup schedule ->
  (forall i, i ∈ schedule -> i < length nodes) ->
  let st := Coordinator.queryAllNodes nodes params onProgress probes s0
              schedule in
  length (Coordinator.promises st) = length nodes
  /\ (forall i, i < length nodes -> i ∉ schedule ->
      Coordinator.promises st !! i = Some Coordinator.Pending)
  /\ Coordinator.calls st = omap (Spec.result_at nodes params probes) schedule.
Proof.
  induction schedule as [|i done IH] using rev_ind; intros Hnd Hlt.
  - simpl. rewrite length_replicate. repeat split.
    intros i Hi _. apply lookup_replicate_2, Hi.
  - apply NoDup_app in Hnd as (Hnd & Hdisj & _).
    assert (Hi : i < length nodes)
      by (apply Hlt, elem_of_app; right; constructor).
    assert (Hnew : i ∉ done)
      by (intros Hin; apply (Hdisj i Hin); constructor).
    destruct IH as (Hlen & Hpend & Hcalls);
      [exact Hnd | intros j Hj; apply Hlt, elem_of_app; left; exact Hj |].
    cbv zeta. rewrite run_snoc.
    destruct (settle_effect
                (Coordinator.queryAllNodes nodes params onProgress probes s0
                   done) i)
      as [[_ [Hne | Hnone]]
         | (node & r & Hnode & _ & -> & -> & _ & (x & -> & _) & _)].
    + exfalso. apply Hne, Hpend; assumption.
    + apply lookup_ge_None in Hnone. lia.
    + rewrite length_insert, omap_app, Hcalls.
      repeat apply conj; [exact Hlen | |].
      * intros j Hj Hnot. apply not_elem_of_app in Hnot as [Hnot Hji].
        rewrite list_lookup_insert_ne
          by (intros ->; apply Hji; constructor).
        apply Hpend; assumption.
      * f_equal. cbn [omap list_omap]. unfold Spec.result_at at 1.
        rewrite Hnode. reflexivity.
Qed.

Lemma rejected_stays (st : Coordinator.State (Sink := Sink)) (e : Thrown)
    (schedule : list nat) :
  Coordinator.all st = Coordinator.Rejected e ->
  Coordinator.all
    (List.fold_left (Coordinator.settle nodes params onProgress probes)
       schedule st)
  = Coordinator.Rejected e.
Proof.
  revert st. induction schedule as [|i rest IH]; intros st Hall; [exact Hall|].
  simpl. apply IH. unfold Coordinator.settle.
  destruct (Coordinator.promises st !! i) as [[| |]|]; try exact Hall.
  destruct (nodes !! i) as [node|]; [|exact Hall].
  destruct (Coordinator.task params onProgress node (probes i)
              (Coordinator.sink st)) as [[[r|e'] s'] made];
    simpl; rewrite Hall; reflexivity.
Qed.

End AnySink.

Lemma probe_result_terminal {num : Type} `{NumberToString num}
    (params : QueryParams num) (node : VamdcNode) (p : Coordinator.Probe) :
  status (Spec.probe_result params node p) = Status.success
  \/ status (Spec.probe_result params node p) = Status.error
  \/ status (Spec.probe_result params node p) = Status.timeout.
Proof.
  unfold Spec.probe_result.
  destruct (queryNode_total (Coordinator.network p) node params
              (Coordinator.signal_of p)) as (r & -> & _ & _ & Hst).
  exact Hst.
Qed.

Lemma results_at_valid {num : Type} `{NumberToString num}
    (nodes : list VamdcNode) (params : QueryParams num)
    (probes : nat -> Coordinator.Probe) (schedule : list nat) :
  (forall i, i ∈ schedule -> i < length nodes) ->
  length (omap (Spec.result_at nodes params probes) schedule)
  = length schedule
  /\ Forall (fun r => status r = Status.success \/ status r = Status.error
                      \/ status r = Status.timeout)
       (omap (Spec.result_at nodes params probes) schedule).
Proof.
  induction schedule as [|i rest IH]; intros Hlt; [split; constructor|].
  destruct IH as [IHl IHf];
    [intros j Hj; apply Hlt; right; exact Hj|].
  destruct (lookup_lt_is_Some_2 nodes i) as [node Hnode];
    [apply Hlt; left|].
  assert (Hr : Spec.result_at nodes params probes i
               = Some (Spec.probe_result params node (probes i)))
    by (unfold Spec.result_at; rewrite Hnode; reflexivity).
  cbn [omap list_omap]. rewrite Hr.
  split; [cbn [length]; congruence|].
  constructor; [apply probe_result_terminal | exact IHf].
Qed.

(** X9: whatever the sink does, throwing included, every probe that
    settles leads to exactly one call of the sink, made with the result
    of [queryNode] for that node, in the order of settlement; a call
    never carries the status [pending], and the state of the sink is the
    one these calls leave, one after the other. *)
Theorem sink_called_once_per_settlement {num : Type} `{NumberToString num}
    {Sink : Type} (nodes : list VamdcNode) (params : QueryParams num)
    (onProgress : Sink -> NodeResponse -> Sink * option Thrown)
    (probes : nat -> Coordinator.Probe) (s0 : Sink) (schedule : list nat) :
  NoDup schedule ->
  (forall i, i ∈ schedule -> i < length nodes) ->
  let st := Coordinator.queryAllNodes nodes params onProgress probes s0
              schedule in
  Coordinator.calls st = omap (Spec.result_at nodes params probes) schedule
  /\ length (Coordinator.calls st) = length schedule
  /\ Forall (fun r => status r = Status.success \/ status r = Status.error
                      \/ status r = Status.timeout) (Coordinator.calls st)
  /\ Coordinator.sink st
     = List.fold_left (fun s r => fst (onProgress s r)) (Coordinator.calls st)
         s0.
Proof.
  intros Hnd Hlt st.
  destruct (run_calls nodes params onProgress probes s0 schedule Hnd Hlt)
    as (_ & _ & Hcalls).
  fold st in Hcalls.
  destruct (results_at_valid nodes params probes schedule Hlt) as [Hl Hf].
  rewrite Hcalls. repeat apply conj; try assumption; try reflexivity.
  rewrite <- Hcalls. apply run_sink_fold.
Qed.

Lemma sink_called_once_per_settlement_witness :
  nodeId <$> Coordinator.calls
               (Coordinator.queryAllNodes Sample.nodes3 Sample.params
                  Sample.throwing Sample.probes 0 [2; 0])
  = ["c"; "a"]
  /\ Coordinator.sink
       (Coordinator.queryAllNodes Sample.nodes3 Sample.params
          Sample.throwing Sample.probes 0 [2; 0]) = 2.
Proof.
  assert (Hnd : NoDup [2; 0]).
  { apply NoDup_cons_2; [|apply NoDup_singleton].
    intros Hin. apply list_elem_of_singleton in Hin. discriminate Hin. }
  assert (Hlt : forall i, i ∈ [2; 0] -> i < length Sample.nodes3).
  { intros i Hi. apply elem_of_cons in Hi as [-> | Hi]; [simpl; lia|].
    apply list_elem_of_singleton in Hi as ->. simpl. lia. }
  destruct (sink_called_once_per_settlement Sample.nodes3 Sample.params
              Sample.throwing Sample.probes 0 [2; 0] Hnd Hlt)
    as (Hcalls & _ & _ & Hsink).
  rewrite Hsink, Hcalls. split; reflexivity.
Defined.

(** X10: nothing catches what the sink throws.  If the sink throws at
    the first probe that settles, the promise of [queryAllNodes] is
    rejected with what the sink threw, and it stays rejected whatever
    settles afterwards. *)
Theorem sink_exception_rejects_round {num : Type} `{NumberToString num}
    {Sink : Type} (nodes : list VamdcNode) (params : QueryParams num)
    (onProgress : Sink -> NodeResponse -> Sink * option Thrown)
    (probes : nat -> Coordinator.Probe) (s0 : Sink)
    (i : nat) (node : VamdcNode) (e : Thrown) (rest : list nat) :
  nodes !! i = Some node ->
  snd (onProgress s0 (Spec.probe_result params node (probes i))) = Some e ->
  Coordinator.all
    (Coordinator.queryAllNodes nodes params onProgress probes s0 (i :: rest))
  = Coordinator.Rejected e.
Proof.
  intros Hnode Hthrow.
  unfold Coordinator.queryAllNodes. cbn [List.fold_left].
  apply rejected_stays.
  assert (Hi : i < length nodes) by (apply lookup_lt_Some in Hnode; exact Hnode).
  assert (Hp : Coordinator.promises (Coordinator.start nodes s0) !! i
               = Some Coordinator.Pending)
    by (apply lookup_replicate_2, Hi).
  assert (Hall : Coordinator.all (Coordinator.start nodes s0)
                 = Coordinator.Pending).
  { unfold Coordinator.start. cbn [Coordinator.all].
    rewrite (collect_None _ i); [reflexivity|].
    apply lookup_replicate_2, Hi. }
  destruct (settle_effect nodes params onProgress probes
              (Coordinator.start nodes s0) i)
    as [[_ [Hne | Hnone]] | (node' & r & Hnode' & _ & -> & _ & _ & _ & Hrej)].
  - congruence.
  - congruence.
  - rewrite Hnode in Hnode'. injection Hnode' as <-.
    change (Coordinator.sink (Coordinator.start nodes s0)) with s0 in Hrej.
    rewrite Hthrow, Hall in Hrej. exact Hrej.
Qed.

Lemma sink_exception_rejects_round_witness :
  Coordinator.all
    (Coordinator.queryAllNodes Sample.nodes3 Sample.params Sample.throwing
       Sample.probes 0 [1; 0; 2])
  = Coordinator.Rejected (ThrownError "TypeError" "results is undefined").
Proof.
  apply (sink_exception_rejects_round Sample.nodes3 Sample.params
           Sample.throwing Sample.probes 0 1
           (mkNode "b" "B" "https://b.org/tap/")); reflexivity.
Defined.

(** X12: for an empty list of nodes the promise of [queryAllNodes] is
    fulfilled with the empty collection from the start, and the sink is
    never called. *)
Theorem no_nodes_no_calls {num : Type} `{NumberToString num} {Sink : Type}
    (params : QueryParams num)
    (onProgress : Sink -> NodeResponse -> Sink * option Thrown)
    (probes : nat -> Coordinator.Probe) (s0 : Sink) (schedule : list nat) :
  Coordinator.all
    (Coordinator.queryAllNodes [] params onProgress probes s0 schedule)
  = Coordinator.Fulfilled []
  /\ Coordinator.calls
       (Coordinator.queryAllNodes [] params onProgress probes s0 schedule)
     = []
  /\ Coordinator.sink
       (Coordinator.queryAllNodes [] params onProgress probes s0 schedule)
     = s0.
Proof.
  assert (Hrun : Coordinator.queryAllNodes [] params onProgress probes s0
                   schedule
                 = Coordinator.start [] s0).
  { induction schedule as [|i done IH] using rev_ind; [reflexivity|].
    rewrite run_snoc, IH. reflexivity. }
  rewrite Hrun. repeat split.
Qed.

(** ** The application shell *)

Lemma findIndex_from_spec {A} (p : A -> bool) (l : list A) (i0 : Z) :
  (App.findIndex_from p l i0 = (-1)%Z /\ Forall (fun x => p x = false) l)
  \/ exists k x,
       App.findIndex_from p l i0 = (i0 + Z.of_nat k)%Z
       /\ l !! k = Some x /\ p x = true
       /\ forall j y, j < k -> l !! j = Some y -> p y = false.
Proof.
  revert i0. induction l as [|a l IH]; intros i0; simpl.
  - left. split; [reflexivity | constructor].
  - destruct (p a) eqn:Hpa.
    + right. exists 0, a. repeat split; [f_equal; lia | exact Hpa |].
      intros j y Hj. lia.
    + destruct (IH (i0 + 1)%Z) as [[Hnone Hall] | (k & x & Hk & Hx & Hpx & Hbefore)].
      * left. split; [exact Hnone | constructor; assumption].
      * right. exists (S k), x. repeat split; [rewrite Hk; lia | exact Hx
                                               | exact Hpx |].
        intros [|j] y Hj Hy; simpl in Hy.
        -- injection Hy as <-. exact Hpa.
        -- apply (Hbefore j y); [lia | exact Hy].
Qed.

Lemma onSettled_spec (rows : list NodeResponse) (r : NodeResponse) :
  (App.onSettled rows r = (rows, None)
   /\ Forall (fun x => nodeId x <> nodeId r) rows)
  \/ exists k x,
       App.onSettled rows r = (<[k := r]> rows, None)
       /\ rows !! k = Some x /\ nodeId x = nodeId r
       /\ forall j y, j < k -> rows !! j = Some y -> nodeId y <> nodeId r.
Proof.
  unfold App.onSettled, App.findIndex.
  destruct (findIndex_from_spec
              (fun x => String.eqb (nodeId x) (nodeId r)) rows 0)
    as [[-> Hall] | (k & x & -> & Hx & Hpx & Hbefore)].
  - left. split; [reflexivity|].
    eapply Forall_impl; [exact Hall|].
    intros a Ha. apply String.eqb_neq, Ha.
  - right. exists k, x.
    replace (0 <=? 0 + Z.of_nat k)%Z with true by (symmetry; apply Z.leb_le; lia).
    replace (Z.to_nat (0 + Z.of_nat k)) with k by lia.
    repeat split; [exact Hx | apply String.eqb_eq, Hpx |].
    intros j y Hj Hy. apply String.eqb_neq. apply (Hbefore j y Hj Hy).
Qed.

Lemma onSettled_never_throws : Spec.sink_never_throws App.onSettled.
Proof.
  intros rows r.
  destruct (onSettled_spec rows r) as [[-> _] | (k & x & -> & _)]; reflexivity.
Qed.

Lemma onSettled_column (rows : list NodeResponse) (r : NodeResponse) :
  nodeId <$> fst (App.onSettled rows r) = nodeId <$> rows.
Proof.
  destruct (onSettled_spec rows r) as [[-> _] | (k & x & -> & Hx & Hid & _)];
    [reflexivity|].
  simpl. rewrite list_fmap_insert. apply list_insert_id.
  rewrite list_lookup_fmap, Hx. simpl. congruence.
Qed.

Lemma fold_onSettled_column (rs rows : list NodeResponse) :
  nodeId <$> List.fold_left (fun s r => fst (App.onSettled s r)) rs rows
  = nodeId <$> rows.
Proof.
  revert rows. induction rs as [|r rs IH]; intros rows; [reflexivity|].
  simpl. rewrite IH. apply onSettled_column.
Qed.

Lemma onSettled_own_row (rows : list NodeResponse) (r x : NodeResponse)
    (i : nat) :
  NoDup (nodeId <$> rows) ->
  rows !! i = Some x -> nodeId x = nodeId r ->
  fst (App.onSettled rows r) = <[i := r]> rows.
Proof.
  intros Hnd Hx Hid.
  destruct (onSettled_spec rows r) as [[_ Hall] | (k & y & -> & Hy & Hidy & _)].
  - rewrite Forall_lookup in Hall.
    exfalso. apply (Hall i x Hx Hid).
  - simpl. f_equal.
    apply (NoDup_lookup (nodeId <$> rows) k i (nodeId r)); [exact Hnd | |];
      rewrite list_lookup_fmap; [rewrite Hy | rewrite Hx]; simpl; congruence.
Qed.

Lemma onSettled_shadowed (rows : list NodeResponse) (r a b : NodeResponse)
    (i j : nat) :
  i < j -> rows !! i = Some a -> rows !! j = Some b ->
  nodeId a = nodeId b ->
  fst (App.onSettled rows r) !! j = Some b.
Proof.
  intros Hij Ha Hb Hab.
  destruct (onSettled_spec rows r)
    as [[-> _] | (k & y & -> & Hy & Hidy & Hbefore)]; [exact Hb|].
  simpl. rewrite list_lookup_insert_ne; [exact Hb|].
  intros ->. rewrite Hb in Hy. injection Hy as <-.
  apply (Hbefore i a Hij Ha). congruence.
Qed.

Lemma fold_onSettled_shadowed (rs rows : list NodeResponse)
    (a b : NodeResponse) (i j : nat) :
  i < j -> rows !! i = Some a -> rows !! j = Some b ->
  nodeId a = nodeId b ->
  List.fold_left (fun s r => fst (App.onSettled s r)) rs rows !! j = Some b.
Proof.
  intros Hij. revert rows a.
  induction rs as [|r rs IH]; intros rows a Ha Hb Hab; [exact Hb|].
  simpl.
  assert (Hcol := onSettled_column rows r).
  assert (Hi : (nodeId <$> fst (App.onSettled rows r)) !! i = Some (nodeId a))
    by (rewrite Hcol, list_lookup_fmap, Ha; reflexivity).
  rewrite list_lookup_fmap in Hi.
  destruct (fst (App.onSettled rows r) !! i) as [a'|] eqn:Ha';
    [|discriminate Hi].
  injection Hi as Hi.
  apply (IH _ a'); [exact Ha' | |congruence].
  apply (onSettled_shadowed rows r a b i j); assumption.
Qed.

Section AppFacts.
Context {num : Type} `{NumberToString num}.
Variable nodes : list VamdcNode.
Variable params : QueryParams num.
Variable probes : nat -> Coordinator.Probe.

Lemma rows_lookup (settled : list nat) (j : nat) :
  Notions.rows nodes params probes settled !! j
  = (fun node => if bool_decide (j ∈ settled)
                 then Spec.probe_result params node (probes j)
                 else App.pending_entry node) <$> nodes !! j.
Proof. unfold Notions.rows. apply list_lookup_imap. Qed.

Lemma rows_column (settled : list nat) :
  nodeId <$> Notions.rows nodes params probes settled = id <$> nodes.
Proof.
  apply list_eq. intros j.
  rewrite !list_lookup_fmap, rows_lookup.
  destruct (nodes !! j) as [node|]; [|reflexivity].
  simpl. destruct (bool_decide (j ∈ settled)); [|reflexivity].
  f_equal. apply probe_result_nodeId.
Qed.

Lemma rows_none : Notions.rows nodes params probes [] = App.pending_entry <$> nodes.
Proof.
  apply list_eq. intros j. rewrite rows_lookup, list_lookup_fmap.
  destruct (nodes !! j); reflexivity.
Qed.

Lemma rows_all (schedule : list nat) :
  (forall i, i < length nodes -> i ∈ schedule) ->
  Notions.rows nodes params probes schedule = Spec.results nodes params probes.
Proof.
  intros Hall. apply list_eq. intros j.
  unfold Spec.results. rewrite rows_lookup, list_lookup_imap.
  destruct (nodes !! j) as [node|] eqn:Hnode; [|reflexivity].
  simpl. rewrite bool_decide_eq_true_2; [reflexivity|].
  apply Hall. apply lookup_lt_Some in Hnode. exact Hnode.
Qed.

Lemma rows_fold (settled : list nat) :
  NoDup (id <$> nodes) ->
  (forall i, i ∈ settled -> i < length nodes) ->
  List.fold_left (fun s r => fst (App.onSettled s r))
    (omap (Spec.result_at nodes params probes) settled)
    (App.pending_entry <$> nodes)
  = Notions.rows nodes params probes settled.
Proof.
  intros Hids.
  induction settled as [|i done IH] using rev_ind; intros Hlt.
  - symmetry. apply rows_none.
  - rewrite omap_app, fold_left_app, IH
      by (intros j Hj; apply Hlt, elem_of_app; left; exact Hj).
    assert (Hi : i < length nodes)
      by (apply Hlt, elem_of_app; right; constructor).
    destruct (lookup_lt_is_Some_2 nodes i Hi) as [node Hnode].
    assert (Hr : Spec.result_at nodes params probes i
                 = Some (Spec.probe_result params node (probes i)))
      by (unfold Spec.result_at; rewrite Hnode; reflexivity).
    cbn [omap list_omap]. rewrite Hr. cbn [List.fold_left].
    pose proof (rows_lookup done i) as Hrow. rewrite Hnode in Hrow.
    simpl in Hrow.
    assert (Hcol : NoDup (nodeId <$> Notions.rows nodes params probes done))
      by (rewrite rows_column; exact Hids).
    assert (Hid : nodeId (if bool_decide (i ∈ done)
                          then Spec.probe_result params node (probes i)
                          else App.pending_entry node)
                  = nodeId (Spec.probe_result params node (probes i))).
    { rewrite probe_result_nodeId.
      destruct (bool_decide (i ∈ done));
        [apply probe_result_nodeId | reflexivity]. }
    rewrite (onSettled_own_row _ _ _ i Hcol Hrow Hid).
    apply list_eq. intros j. rewrite rows_lookup.
    destruct (decide (j = i)) as [->|Hne].
    + rewrite list_lookup_insert_eq
        by (unfold Notions.rows; rewrite length_imap; exact Hi).
      rewrite Hnode. simpl.
      rewrite bool_decide_eq_true_2 by (apply elem_of_app; right; constructor).
      reflexivity.
    + rewrite list_lookup_insert_ne by congruence.
      rewrite rows_lookup.
      assert (Hiff : bool_decide (j ∈ (done ++ [i])%list)
                     = bool_decide (j ∈ done)).
      { apply bool_decide_ext.
        rewrite elem_of_app, list_elem_of_singleton. tauto. }
      rewrite Hiff. reflexivity.
Qed.

Lemma handleQuery_parts (st : App.State) (schedule : list nat) :
  let round :=
    Coordinator.queryAllNodes (App.nodes st) params App.onSettled probes
      (App.pending_entry <$> App.nodes st) schedule in
  App.results (fst (App.handleQuery st params probes schedule))
  = Coordinator.sink round
  /\ App.nodes (fst (App.handleQuery st params probes schedule)) = App.nodes st
  /\ App.loading (fst (App.handleQuery st params probes schedule))
     = App.loading st
  /\ App.error (fst (App.handleQuery st params probes schedule))
     = App.error st
  /\ match Coordinator.all round with
     | Coordinator.Fulfilled _ =>
         App.querying (fst (App.handleQuery st params probes schedule)) = false
         /\ snd (App.handleQuery st params probes schedule)
            = Coordinator.Fulfilled tt
     | Coordinator.Rejected e =>
         App.querying (fst (App.handleQuery st params probes schedule)) = true
         /\ snd (App.handleQuery st params probes schedule)
            = Coordinator.Rejected e
     | Coordinator.Pending =>
         App.querying (fst (App.handleQuery st params probes schedule)) = true
         /\ snd (App.handleQuery st params probes schedule)
            = Coordinator.Pending
     end.
Proof.
  intros round. unfold App.handleQuery. fold round.
  destruct (Coordinator.all round); simpl; repeat split.
Qed.

End AppFacts.

(** X13: while a round is under way, with nodes of distinct ids, the
    table of [handleQuery] has one row per node, in the order of the
    nodes: the result of [queryNode] for a node whose probe has
    settled, and a row of status [pending] for the others.  As long as a
    probe has not settled, [querying] stays set and [handleQuery] has
    not returned. *)
Theorem handleQuery_shows_progress {num : Type} `{NumberToString num}
    (st : App.State) (params : QueryParams num)
    (probes : nat -> Coordinator.Probe) (schedule : list nat) :
  NoDup (id <$> App.nodes st) ->
  NoDup schedule ->
  (forall i, i ∈ schedule -> i < length (App.nodes st)) ->
  App.results (fst (App.handleQuery st params probes schedule))
  = Notions.rows (App.nodes st) params probes schedule
  /\ ((exists i, i < length (App.nodes st) /\ i ∉ schedule) ->
      App.querying (fst (App.handleQuery st params probes schedule)) = true
      /\ snd (App.handleQuery st params probes schedule)
         = Coordinator.Pending).
Proof.
  intros Hids Hnd Hlt.
  destruct (handleQuery_parts params probes st schedule)
    as (Hres & _ & _ & _ & Hall).
  cbv zeta in Hres, Hall. split.
  - rewrite Hres, run_sink_fold.
    destruct (run_calls (App.nodes st) params App.onSettled probes
                (App.pending_entry <$> App.nodes st) schedule Hnd Hlt)
      as (_ & _ & ->).
    apply rows_fold; assumption.
  - intros (i & Hi & Hnot).
    rewrite (incomplete_pending (App.nodes st) params probes schedule _ i)
      in Hall; [exact Hall | | exact Hi | exact Hnot].
    apply run_round_state; [apply onSettled_never_throws | assumption ..].
Qed.

Lemma handleQuery_shows_progress_witness :
  status <$> App.results
               (fst (App.handleQuery Cases.loaded Sample.params Sample.probes
                       [2; 0]))
  = [Status.success; Status.pending; Status.timeout]
  /\ App.querying
       (fst (App.handleQuery Cases.loaded Sample.params Sample.probes [2; 0]))
     = true.
Proof.
  assert (Hnd : NoDup [2; 0]).
  { apply NoDup_cons_2; [|apply NoDup_singleton].
    intros Hin. apply list_elem_of_singleton in Hin. discriminate Hin. }
  assert (Hlt : forall i, i ∈ [2; 0] -> i < length (App.nodes Cases.loaded)).
  { intros i Hi. apply elem_of_cons in Hi as [-> | Hi]; [simpl; lia|].
    apply list_elem_of_singleton in Hi as ->. simpl. lia. }
  destruct (handleQuery_shows_progress Cases.loaded Sample.params
              Sample.probes [2; 0] nodes3_ids_distinct Hnd Hlt)
    as [Hrows Hquerying].
  split.
  - rewrite Hrows. reflexivity.
  - apply Hquerying. exists 1. split; [simpl; lia|].
    intros Hin. apply elem_of_cons in Hin as [Hin | Hin]; [discriminate Hin|].
    apply list_elem_of_singleton in Hin. discriminate Hin.
Defined.

(** X14: once every probe has settled, in whatever order, and the nodes
    have distinct ids, [handleQuery] returns: the table holds exactly
    the collection [queryAllNodes] returns, in the order of the nodes,
    [querying] is cleared, and the nodes, [loading] and [error] are as
    before. *)
Theorem handleQuery_completes {num : Type} `{NumberToString num}
    (st : App.State) (params : QueryParams num)
    (probes : nat -> Coordinator.Probe) (schedule : list nat) :
  NoDup (id <$> App.nodes st) ->
  schedule ≡ₚ seq 0 (length (App.nodes st)) ->
  App.handleQuery st params probes schedule
  = ({| App.nodes := App.nodes st;
        App.results := Spec.results (App.nodes st) params probes;
        App.querying := false;
        App.loading := App.loading st;
        App.error := App.error st |},
     Coordinator.Fulfilled tt)
  /\ Coordinator.all
       (Coordinator.queryAllNodes (App.nodes st) params App.onSettled probes
          (App.pending_entry <$> App.nodes st) schedule)
     = Coordinator.Fulfilled (Spec.results (App.nodes st) params probes).
Proof.
  intros Hids Hperm.
  destruct (schedule_facts (App.nodes st) schedule Hperm) as [Hnd Hin].
  destruct (run_complete (App.nodes st) params App.onSettled probes
              (App.pending_entry <$> App.nodes st) onSettled_never_throws
              schedule Hperm) as (Hall & Hcalls & _).
  split; [|exact Hall].
  unfold App.handleQuery. cbv zeta. rewrite Hall. f_equal. f_equal.
  rewrite run_sink_fold, Hcalls.
  rewrite rows_fold; [|exact Hids | intros i; apply Hin].
  apply rows_all. intros i. apply Hin.
Qed.

Lemma handleQuery_completes_witness :
  App.handleQuery Cases.loaded Sample.params Sample.probes [2; 0; 1]
  = ({| App.nodes := Sample.nodes3;
        App.results := Spec.results Sample.nodes3 Sample.params Sample.probes;
        App.querying := false;
        App.loading := false;
        App.error := None |},
     Coordinator.Fulfilled tt).
Proof.
  destruct (handleQuery_completes Cases.loaded Sample.params Sample.probes
              [2; 0; 1] nodes3_ids_distinct schedule_201) as [Heq _].
  exact Heq.
Defined.

(** X15: when two nodes share an id, the row of the later one is never
    written: the sink looks a result up by id and finds the row of the
    earlier node.  The later node is shown as [pending] at every moment
    of the round, also after all probes have settled. *)
Theorem duplicate_id_stays_pending {num : Type} `{NumberToString num}
    (st : App.State) (params : QueryParams num)
    (probes : nat -> Coordinator.Probe) (schedule : list nat)
    (i j : nat) (a b : VamdcNode) :
  App.nodes st !! i = Some a ->
  App.nodes st !! j = Some b ->
  i < j ->
  id a = id b ->
  App.results (fst (App.handleQuery st params probes schedule)) !! j
  = Some (App.pending_entry b).
Proof.
  intros Ha Hb Hij Hid.
  destruct (handleQuery_parts params probes st schedule) as (Hres & _).
  cbv zeta in Hres. rewrite Hres, run_sink_fold.
  apply (fold_onSettled_shadowed _ _ (App.pending_entry a) _ i j Hij).
  - rewrite list_lookup_fmap, Ha. reflexivity.
  - rewrite list_lookup_fmap, Hb. reflexivity.
  - exact Hid.
Qed.

Lemma duplicate_id_stays_pending_witness :
  App.results
    (fst (App.handleQuery Cases.loaded_twins Sample.params Sample.probes
            [2; 0; 1])) !! 2
  = Some (App.pending_entry (mkNode "a" "A2" "https://a2.org/tap/"))
  /\ snd (App.handleQuery Cases.loaded_twins Sample.params Sample.probes
            [2; 0; 1]) = Coordinator.Fulfilled tt.
Proof.
  split; [|reflexivity].
  apply (duplicate_id_stays_pending Cases.loaded_twins Sample.params
           Sample.probes [2; 0; 1] 0 2 (mkNode "a" "A" "https://a.org/tap/"));
    [reflexivity | reflexivity | lia | reflexivity].
Defined.

(** X16: whatever the ids of the nodes and whatever settles, the table
    of [handleQuery] keeps one row per node, in the order of the nodes,
    each under the id of its node: the sink neither adds nor removes a
    row, and writes a result only over a row of the same id. *)
Theorem table_rows_stay_aligned {num : Type} `{NumberToString num}
    (st : App.State) (params : QueryParams num)
    (probes : nat -> Coordinator.Probe) (schedule : list nat) :
  nodeId <$> App.results (fst (App.handleQuery st params probes schedule))
  = id <$> App.nodes st
  /\ length (App.results (fst (App.handleQuery st params probes schedule)))
     = length (App.nodes st).
Proof.
  destruct (handleQuery_parts params probes st schedule) as (Hres & _).
  cbv zeta in Hres.
  assert (Hcol : nodeId <$> App.results
                              (fst (App.handleQuery st params probes schedule))
                 = id <$> App.nodes st).
  { rewrite Hres, run_sink_fold, fold_onSettled_column.
    rewrite <- list_fmap_compose. reflexivity. }
  split; [exact Hcol|].
  rewrite <- (length_fmap nodeId), Hcol. apply length_fmap.
Qed.

(** X17: the [onMounted] hook never throws and always clears [loading].
    When the node list is served, the nodes are the records of the
    resource and [error] is untouched; when the status is outside 200
    to 299, the nodes are untouched and [error] is [Failed to load
    nodes: ] followed by the status text; when the request fails, or
    the body cannot be read, [error] is the message of the failure, or
    [Failed to load nodes] when what was thrown is not an [Error]. *)
Theorem onMounted_outcome (st : App.State)
    (fetched : result (Fetch.Response (list VamdcNode))) :
  App.loading (App.onMounted st fetched) = false
  /\ App.results (App.onMounted st fetched) = App.results st
  /\ App.querying (App.onMounted st fetched) = App.querying st
  /\ (forall response ns,
        fetched = Ok response -> Fetch.ok response = true ->
        Fetch.body response = Ok ns ->
        App.nodes (App.onMounted st fetched) = ns
        /\ App.error (App.onMounted st fetched) = App.error st)
  /\ (forall response,
        fetched = Ok response -> Fetch.ok response = false ->
        App.nodes (App.onMounted st fetched) = App.nodes st
        /\ App.error (App.onMounted st fetched)
           = Some ("Failed to load nodes: " ++ Fetch.statusText response))
  /\ (forall response ename msg,
        fetched = Throw (ThrownError ename msg)
        \/ (fetched = Ok response /\ Fetch.ok response = true
            /\ Fetch.body response = Throw (ThrownError ename msg)) ->
        App.nodes (App.onMounted st fetched) = App.nodes st
        /\ App.error (App.onMounted st fetched) = Some msg)
  /\ (forall response,
        fetched = Throw ThrownOther
        \/ (fetched = Ok response /\ Fetch.ok response = true
            /\ Fetch.body response = Throw ThrownOther) ->
        App.nodes (App.onMounted st fetched) = App.nodes st
        /\ App.error (App.onMounted st fetched) = Some "Failed to load nodes").
Proof.
  unfold App.onMounted, Registry.fetchNodes.
  repeat apply conj.
  - destruct fetched as [response|e]; simpl;
      [destruct (Fetch.ok response); simpl;
       [destruct (Fetch.body response)|]|]; reflexivity.
  - destruct fetched as [response|e]; simpl;
      [destruct (Fetch.ok response); simpl;
       [destruct (Fetch.body response)|]|]; reflexivity.
  - destruct fetched as [response|e]; simpl;
      [destruct (Fetch.ok response); simpl;
       [destruct (Fetch.body response)|]|]; reflexivity.
  - intros response ns -> Hok Hb. simpl. rewrite Hok. simpl. rewrite Hb.
    split; reflexivity.
  - intros response -> Hok. simpl. rewrite Hok. split; reflexivity.
  - intros response ename msg [-> | (-> & Hok & Hb)]; simpl;
      [|rewrite Hok; simpl; rewrite Hb]; split; reflexivity.
  - intros response [-> | (-> & Hok & Hb)]; simpl;
      [|rewrite Hok; simpl; rewrite Hb]; split; reflexivity.
Qed.

Lemma onMounted_outcome_witness :
  App.onMounted App.initial Cases.not_found
  = {| App.nodes := []; App.results := []; App.querying := false;
       App.loading := false;
       App.error := Some "Failed to load nodes: Not Found" |}.
Proof.
  destruct (onMounted_outcome App.initial Cases.not_found)
    as (Hl & Hr & Hq & _ & Herr & _).
  destruct (Herr _ eq_refl eq_refl) as [Hn He].
  destruct (App.onMounted App.initial Cases.not_found) as [n r q l e].
  simpl in *. subst. reflexivity.
Defined.

(** ** The query form *)

(** X18: when the form shows a query preview, the preview is the very
    query text [buildQueryString] sends for the parameters the form
    submits.  The preview shows whenever both bounds are not 0; with a
    bound of 0 the preview is hidden, and the form still submits
    parameters whose query text is not empty. *)
Theorem preview_is_the_query_sent (st : QueryForm.State) :
  (QueryForm.queryString st <> EmptyString ->
   QueryForm.queryString st
   = Encoder.buildQueryString (QueryForm.handleSubmit st))
  /\ (QueryForm.wavelengthMin st <> 0%Z ->
      QueryForm.wavelengthMax st <> 0%Z ->
      QueryForm.queryString st <> EmptyString)
  /\ (QueryForm.wavelengthMin st = 0%Z \/ QueryForm.wavelengthMax st = 0%Z ->
      QueryForm.queryString st = EmptyString
      /\ Encoder.buildQueryString (QueryForm.handleSubmit st) <> EmptyString).
Proof.
  unfold QueryForm.queryString, QueryForm.falsy, QueryForm.handleSubmit,
    Encoder.buildQueryString.
  cbn [wavelengthMin wavelengthMax].
  repeat apply conj.
  - destruct ((QueryForm.wavelengthMin st =? 0)%Z
              || (QueryForm.wavelengthMax st =? 0)%Z); [congruence|reflexivity].
  - intros Hmin Hmax.
    apply Z.eqb_neq in Hmin, Hmax. rewrite Hmin, Hmax. discriminate.
  - intros Hzero. split; [|discriminate].
    destruct Hzero as [-> | ->]; [reflexivity|].
    rewrite orb_true_r. reflexivity.
Qed.

Lemma preview_is_the_query_sent_witness :
  QueryForm.queryString QueryForm.initial
  = Encoder.buildQueryString (QueryForm.handleSubmit QueryForm.initial)
  /\ QueryForm.queryString (QueryForm.mkState 0 5000) = EmptyString.
Proof.
  destruct (preview_is_the_query_sent QueryForm.initial) as (Hsame & _).
  destruct (preview_is_the_query_sent (QueryForm.mkState 0 5000))
    as (_ & _ & Hzero).
  split; [apply Hsame; discriminate | apply Hzero; left; reflexivity].
Defined.

Lemma quiet_sink_never_rejects {num : Type} `{NumberToString num}
    {Sink : Type} (nodes : list VamdcNode) (params : QueryParams num)
    (onProgress : Sink -> NodeResponse -> Sink * option Thrown)
    (probes : nat -> Coordinator.Probe) (s0 : Sink) (schedule : list nat) :
  Spec.sink_never_throws onProgress ->
  forall e,
    Coordinator.all
      (Coordinator.queryAllNodes nodes params onProgress probes s0 schedule)
    <> Coordinator.Rejected e.
Proof.
  intros Hsink e.
  induction schedule as [|i done IH] using rev_ind.
  - unfold Coordinator.queryAllNodes, Coordinator.start. simpl.
    destruct (Coordinator.collect _); discriminate.
  - rewrite run_snoc. unfold Coordinator.settle.
    destruct (Coordinator.promises _ !! i) as [[| |]|]; try exact IH.
    destruct (nodes !! i) as [node|]; [|exact IH].
    rewrite (task_fulfils params onProgress Hsink). simpl.
    destruct (Coordinator.all
                (Coordinator.queryAllNodes nodes params onProgress probes s0
                   done)) as [|rs|e'];
      [destruct (Coordinator.collect _); discriminate | discriminate | exact IH].
Qed.

(** X19: [handleQuery] never fails: its sink does not throw, so
    whatever the nodes are and whatever settles, in whatever order, the
    promise of [handleQuery] is never rejected. *)
Theorem handleQuery_never_rejects {num : Type} `{NumberToString num}
    (st : App.State) (params : QueryParams num)
    (probes : nat -> Coordinator.Probe) (schedule : list nat) :
  Spec.sink_never_throws App.onSettled
  /\ forall e,
       snd (App.handleQuery st params probes schedule)
       <> Coordinator.Rejected e.
Proof.
  split; [apply onSettled_never_throws|].
  intros e.
  destruct (handleQuery_parts params probes st schedule)
    as (_ & _ & _ & _ & Hall).
  cbv zeta in Hall.
  pose proof (quiet_sink_never_rejects (App.nodes st) params App.onSettled
                probes (App.pending_entry <$> App.nodes st) schedule
                onSettled_never_throws) as Hquiet.
  destruct (Coordinator.all _) as [|rs|e'].
  - destruct Hall as [_ ->]. discriminate.
  - destruct Hall as [_ ->]. discriminate.
  - exfalso. apply (Hquiet e'). reflexivity.
Qed.

(** ** Fan-out coordinator, the results as shared objects *)

Lemma written_keeps (o n : option NodeResponse) :
  (o = None -> Shared.written o n = None)
  /\ (forall v, o = Some v -> exists v', Shared.written o n = Some v').
Proof.
  split.
  - intros ->. reflexivity.
  - intros v ->. destruct n as [v'|]; simpl; eauto.
Qed.

Lemma commit_lookup (old new : Shared.Store) (i : nat) :
  Shared.commit old new !! i
  = (fun o => Shared.written o (default None (new !! i))) <$> old !! i.
Proof.
  revert new i. induction old as [|o os IH]; intros new i; [reflexivity|].
  destruct new as [|n ns].
  - destruct i as [|i]; simpl.
    + destruct o; reflexivity.
    + destruct (os !! i) as [[v|]|]; reflexivity.
  - cbn [Shared.commit]. destruct i as [|i]; [reflexivity|]. simpl. apply IH.
Qed.

Lemma length_commit (old new : Shared.Store) :
  length (Shared.commit old new) = length old.
Proof.
  revert new. induction old as [|o os IH]; intros [|n ns]; simpl;
    try reflexivity.
  rewrite IH. reflexivity.
Qed.

Lemma commit_same (objects : Shared.Store) :
  Shared.commit objects objects = objects.
Proof.
  induction objects as [|o os IH]; [reflexivity|].
  simpl. rewrite IH. destruct o; reflexivity.
Qed.

Lemma store_full (objects : Shared.Store) :
  (forall i, i < length objects -> exists v, objects !! i = Some (Some v)) ->
  exists rs, objects = Some <$> rs.
Proof.
  induction objects as [|o os IH]; intros Hfull; [exists []; reflexivity|].
  destruct (Hfull 0) as [v Hv]; [simpl; lia|].
  simpl in Hv. injection Hv as ->.
  destruct IH as [rs ->].
  - intros i Hi. apply (Hfull (S i)). simpl. lia.
  - exists (v :: rs). reflexivity.
Qed.

Lemma deref_full (rs : list NodeResponse) (i : nat) :
  Shared.deref (Some <$> rs) i = rs !! i.
Proof.
  unfold Shared.deref, Shared.Store. rewrite list_lookup_fmap.
  destruct (rs !! i); reflexivity.
Qed.

Lemma read_full (rs : list NodeResponse) :
  Shared.read (Some <$> rs) (seq 0 (length rs)) = Some rs.
Proof.
  unfold Shared.read.
  assert (Hcells : Shared.deref (Some <$> rs) <$> seq 0 (length rs)
                   = Some <$> rs).
  { apply list_eq. intros i. rewrite !list_lookup_fmap.
    destruct (decide (i < length rs)) as [Hi|Hi].
    - rewrite lookup_seq_lt by exact Hi.
      transitivity (Some (Shared.deref (Some <$> rs) i)); [reflexivity|].
      rewrite deref_full.
      destruct (rs !! i) as [r|] eqn:Hr; [reflexivity|].
      apply lookup_ge_None in Hr. lia.
    - rewrite lookup_seq_ge by lia.
      rewrite (proj2 (lookup_ge_None rs i)) by lia. reflexivity. }
  rewrite Hcells. apply collect_fmap_Some.
Qed.

Section SharedFacts.
Context {num : Type} `{NumberToString num} {Sink : Type}.
Variable nodes : list VamdcNode.
Variable params : QueryParams num.
Variable onProgress :
  Sink -> Shared.Store -> nat -> Sink * Shared.Store * option Thrown.
Variable probes : nat -> Coordinator.Probe.
Variable s0 : Sink.

Lemma shared_task_effect (i : nat) (node : VamdcNode) (s : Sink)
    (objects : Shared.Store) :
  nodes !! i = Some node ->
  Shared.task params onProgress i node (probes i) s objects
  = (match snd (onProgress s
                  (<[i := Some (Spec.probe_result params node (probes i))]>
                     objects) i) with
     | Some e => Throw e
     | None => Ok i
     end,
     fst (Shared.sink_call nodes params onProgress probes (s, objects) i),
     snd (Shared.sink_call nodes params onProgress probes (s, objects) i),
     [Spec.probe_result params node (probes i)]).
Proof.
  intros Hnode.
  unfold Shared.task, Shared.sink_call. rewrite queryNode_probe_result, Hnode.
  cbn [fst snd].
  destruct (onProgress s _ i) as [[s' after] [e|]]; reflexivity.
Qed.

Lemma shared_run_snoc (schedule : list nat) (i : nat) :
  Shared.queryAllNodes nodes params onProgress probes s0 (schedule ++ [i])%list
  = Shared.settle nodes params onProgress probes
      (Shared.queryAllNodes nodes params onProgress probes s0 schedule) i.
Proof. unfold Shared.queryAllNodes. apply fold_left_app. Qed.

Lemma shared_settle_pending (st : Shared.State (Sink := Sink)) (i : nat)
    (node : VamdcNode) :
  Shared.promises st !! i = Some Coordinator.Pending ->
  nodes !! i = Some node ->
  let r := Spec.probe_result params node (probes i) in
  let st' := Shared.settle nodes params onProgress probes st i in
  Shared.calls st' = (Shared.calls st ++ [r])%list
  /\ (Shared.sink st', Shared.store st')
     = Shared.sink_call nodes params onProgress probes
         (Shared.sink st, Shared.store st) i
  /\ match snd (onProgress (Shared.sink st)
                  (<[i := Some r]> (Shared.store st)) i) with
     | Some e =>
         Shared.promises st' = <[i := Coordinator.Rejected e]> (Shared.promises st)
         /\ Shared.values st' = Shared.values st
         /\ Shared.all st'
            = match Shared.all st with
              | Coordinator.Pending => Coordinator.Rejected e
              | a => a
              end
     | None =>
         Shared.promises st' = <[i := Coordinator.Fulfilled i]> (Shared.promises st)
         /\ Shared.values st' = <[i := Some i]> (Shared.values st)
         /\ Shared.all st'
            = match Shared.all st,
                    Coordinator.collect (<[i := Some i]> (Shared.values st)) with
              | Coordinator.Pending, Some refs => Coordinator.Fulfilled refs
              | a, _ => a
              end
     end.
Proof.
  intros Hp Hnode r st'. subst st'. unfold Shared.settle.
  rewrite Hp, Hnode.
  rewrite (shared_task_effect i node (Shared.sink st) (Shared.store st) Hnode).
  fold r.
  destruct (snd (onProgress (Shared.sink st) (<[i := Some r]> (Shared.store st)) i))
    as [e|]; cbn [Shared.calls Shared.sink Shared.store Shared.promises
                    Shared.values Shared.all];
    repeat split;
    destruct (Shared.sink_call nodes params onProgress probes
                (Shared.sink st, Shared.store st) i); reflexivity.
Qed.

Lemma shared_run_calls (schedule : list nat) :
  NoDup schedule ->
  (forall i, i ∈ schedule -> i < length nodes) ->
  let st := Shared.queryAllNodes nodes params onProgress probes s0 schedule in
  length (Shared.promises st) = length nodes
  /\ (forall i, i < length nodes -> i ∉ schedule ->
      Shared.promises st !! i = Some Coordinator.Pending)
  /\ Shared.calls st = omap (Spec.result_at nodes params probes) schedule
  /\ (Shared.sink st, Shared.store st)
     = List.fold_left (Shared.sink_call nodes params onProgress probes)
         schedule (s0, replicate (length nodes) None).
Proof.
  induction schedule as [|i done IH] using rev_ind; intros Hnd Hlt.
  - simpl. rewrite length_replicate. repeat split.
    intros i Hi _. apply lookup_replicate_2, Hi.
  - apply NoDup_app in Hnd as (Hnd & Hdisj & _).
    assert (Hi : i < length nodes)
      by (apply Hlt, elem_of_app; right; constructor).
    assert (Hnew : i ∉ done)
      by (intros Hin; apply (Hdisj i Hin); constructor).
    destruct IH as (Hlen & Hpend & Hcalls & Hsink);
      [exact Hnd | intros j Hj; apply Hlt, elem_of_app; left; exact Hj |].
    destruct (lookup_lt_is_Some_2 nodes i Hi) as [node Hnode].
    cbv zeta. rewrite shared_run_snoc.
    destruct (shared_settle_pending _ i node (Hpend i Hi Hnew) Hnode)
      as (Hc & Hs & Hrest).
    cbv zeta in Hc, Hs, Hrest.
    rewrite Hc, Hs, Hsink, Hcalls, omap_app, fold_left_app.
    assert (Hr : Spec.result_at nodes params probes i
                 = Some (Spec.probe_result params node (probes i)))
      by (unfold Spec.result_at; rewrite Hnode; reflexivity).
    cbn [omap list_omap List.fold_left]. rewrite Hr.
    assert (Hprom : exists x,
               Shared.promises
                 (Shared.settle nodes params onProgress probes
                    (Shared.queryAllNodes nodes params onProgress probes s0 done)
                    i)
               = <[i := x]>
                   (Shared.promises
                      (Shared.queryAllNodes nodes params onProgress probes s0
                         done))).
    { destruct (snd (onProgress _ _ i)) as [e|];
        destruct Hrest as (-> & _); eauto. }
    destruct Hprom as [x ->].
    rewrite length_insert. repeat apply conj; try reflexivity; [exact Hlen|].
    intros j Hj Hnot. apply not_elem_of_app in Hnot as [Hnot Hji].
    rewrite list_lookup_insert_ne by (intros ->; apply Hji; constructor).
    apply Hpend; assumption.
Qed.

End SharedFacts.

Section SharedQuiet.
Context {num : Type} `{NumberToString num} {Sink : Type}.
Variable nodes : list VamdcNode.
Variable params : QueryParams num.
Variable onProgress :
  Sink -> Shared.Store -> nat -> Sink * Shared.Store * option Thrown.
Variable probes : nat -> Coordinator.Probe.
Variable s0 : Sink.
Hypothesis quiet : Shared.never_throws onProgress.

Lemma shared_start_state :
  Shared.round_state nodes params onProgress probes []
    (Shared.start nodes s0).
Proof.
  unfold Shared.round_state, Shared.start. simpl.
  rewrite !length_replicate.
  repeat apply conj; try reflexivity.
  - intros i Hi. repeat split; apply lookup_replicate_2, Hi.
  - intros _ i node _ Hin. inversion Hin.
Qed.

Lemma shared_settle_state (settled : list nat) (i : nat)
    (st : Shared.State (Sink := Sink)) :
  Shared.round_state nodes params onProgress probes settled st ->
  i ∉ settled -> i < length nodes ->
  Shared.round_state nodes params onProgress probes (settled ++ [i])
    (Shared.settle nodes params onProgress probes st i).
Proof.
  intros (Hlp & Hlv & Hls & Hat & Hall & Hkeep) Hnew Hlt.
  destruct (lookup_lt_is_Some_2 nodes i Hlt) as [node Hnode].
  destruct (Hat i Hlt) as (Hp & Hv & Hs).
  rewrite bool_decide_eq_false_2 in Hp, Hv, Hs by exact Hnew.
  destruct (shared_settle_pending nodes params onProgress probes st i node
              Hp Hnode) as (_ & Hsink & Hrest).
  cbv zeta in Hsink, Hrest.
  set (r := Spec.probe_result params node (probes i)) in *.
  set (created := <[i := Some r]> (Shared.store st)) in *.
  pose proof (quiet (Shared.sink st) created i) as Hq.
  rewrite Hq in Hrest. destruct Hrest as (Hp' & Hv' & Hall').
  assert (Hstore : Shared.store
                     (Shared.settle nodes params onProgress probes st i)
                   = Shared.commit created
                       (snd (fst (onProgress (Shared.sink st) created i)))).
  { apply (f_equal snd) in Hsink. cbn [snd] in Hsink. rewrite Hsink.
    unfold Shared.sink_call. rewrite Hnode. cbn [fst snd]. fold r created.
    destruct (onProgress (Shared.sink st) created i) as [[s' after] t].
    reflexivity. }
  assert (Hin : forall j, j <> i ->
            bool_decide (j ∈ (settled ++ [i])%list) = bool_decide (j ∈ settled)).
  { intros j Hj. apply bool_decide_ext.
    rewrite elem_of_app, list_elem_of_singleton. tauto. }
  assert (Hcreated : forall j, j <> i -> created !! j = Shared.store st !! j).
  { intros j Hj. unfold created, Shared.Store.
    apply list_lookup_insert_ne. congruence. }
  assert (Hown : created !! i = Some (Some r)).
  { unfold created, Shared.Store. apply list_lookup_insert_eq.
    unfold Shared.Store in Hls. lia. }
  rewrite (collect_None _ _ Hv) in Hall. rewrite Hall in Hall'.
  unfold Shared.round_state.
  rewrite Hp', Hv', Hall', Hstore, length_commit.
  unfold created at 1. unfold Shared.Store. rewrite !length_insert.
  repeat apply conj; try assumption.
  - intros j Hj. destruct (decide (j = i)) as [->|Hne].
    + rewrite !list_lookup_insert_eq by lia.
      rewrite bool_decide_eq_true_2 by (apply elem_of_app; right; constructor).
      repeat split.
      fold Shared.Store. rewrite commit_lookup, Hown. simpl.
      destruct (default None _); simpl; eauto.
    + rewrite !list_lookup_insert_ne by congruence.
      rewrite (Hin j Hne).
      destruct (Hat j Hj) as (Hpj & Hvj & Hsj).
      repeat split; [exact Hpj | exact Hvj |].
      fold Shared.Store. rewrite commit_lookup, (Hcreated j Hne).
      destruct (bool_decide (j ∈ settled)).
      * destruct Hsj as [v ->]. simpl.
        destruct (default None _); simpl; eauto.
      * rewrite Hsj. reflexivity.
  - destruct (Coordinator.collect _); reflexivity.
  - intros Hquietw j nodej Hj Hjin.
    fold Shared.Store. rewrite (Hquietw (Shared.sink st) created i), commit_same.
    apply elem_of_app in Hjin as [Hjin | Hjin].
    + rewrite (Hcreated j) by (intros ->; apply Hnew, Hjin).
      apply (Hkeep Hquietw j nodej Hj Hjin).
    + apply list_elem_of_singleton in Hjin as ->.
      rewrite Hnode in Hj. injection Hj as <-. exact Hown.
Qed.

Lemma shared_run_state (schedule : list nat) :
  NoDup schedule ->
  (forall i, i ∈ schedule -> i < length nodes) ->
  Shared.round_state nodes params onProgress probes schedule
    (Shared.queryAllNodes nodes params onProgress probes s0 schedule).
Proof.
  induction schedule as [|i done IH] using rev_ind; intros Hnd Hlt.
  - apply shared_start_state.
  - rewrite shared_run_snoc.
    apply NoDup_app in Hnd as (Hnd & Hdisj & _).
    apply shared_settle_state.
    + apply IH; [exact Hnd|].
      intros j Hj. apply Hlt, elem_of_app. left. exact Hj.
    + intros Hin. apply (Hdisj i Hin). constructor.
    + apply Hlt, elem_of_app. right. constructor.
Qed.


Lemma shared_complete (schedule : list nat) :
  schedule ≡ₚ seq 0 (length nodes) ->
  let st := Shared.queryAllNodes nodes params onProgress probes s0 schedule in
  Shared.all st = Coordinator.Fulfilled (seq 0 (length nodes))
  /\ exists rs,
       Shared.collection st = Some rs
       /\ length rs = length nodes
       /\ (Shared.never_writes onProgress ->
           rs = Spec.results nodes params probes).
Proof.
  intros Hperm st. destruct (schedule_facts nodes schedule Hperm) as [Hnd Hin].
  destruct (shared_run_state schedule Hnd (fun i => proj1 (Hin i)))
    as (_ & Hlv & Hls & Hat & Hall & Hkeep).
  fold st in Hlv, Hls, Hat, Hall, Hkeep.
  assert (Hvals : Shared.values st = Some <$> seq 0 (length nodes)).
  { apply list_eq. intros i. rewrite list_lookup_fmap.
    destruct (decide (i < length nodes)) as [Hi|Hi].
    - destruct (Hat i Hi) as (_ & -> & _).
      rewrite bool_decide_eq_true_2 by (apply Hin, Hi).
      rewrite lookup_seq_lt by exact Hi. reflexivity.
    - rewrite lookup_seq_ge by lia.
      apply lookup_ge_None. lia. }
  rewrite Hvals, collect_fmap_Some in Hall.
  split; [exact Hall|].
  destruct (store_full (Shared.store st)) as [rs Hrs].
  { intros i Hi. rewrite Hls in Hi. destruct (Hat i Hi) as (_ & _ & Hs).
    rewrite bool_decide_eq_true_2 in Hs by (apply Hin, Hi). exact Hs. }
  assert (Hlen : length rs = length nodes).
  { rewrite <- Hls, Hrs. symmetry. apply length_fmap. }
  exists rs. repeat apply conj; [|exact Hlen|].
  - unfold Shared.collection. rewrite Hall, Hrs, <- Hlen. apply read_full.
  - intros Hw. apply list_eq. intros i.
    unfold Spec.results. rewrite list_lookup_imap.
    destruct (nodes !! i) as [node|] eqn:Hnode.
    + assert (Hi : i < length nodes)
        by (apply lookup_lt_Some in Hnode; exact Hnode).
      pose proof (Hkeep Hw i node Hnode (proj2 (Hin i) Hi)) as Hs.
      rewrite Hrs in Hs. unfold Shared.Store in Hs.
      rewrite list_lookup_fmap in Hs.
      destruct (rs !! i); simpl in *; congruence.
    + apply lookup_ge_None. rewrite Hlen. apply lookup_ge_None. exact Hnode.
Qed.

End SharedQuiet.

Lemma reader_never_writes {Sink : Type}
    (f : Sink -> NodeResponse -> Sink * option Thrown) :
  Shared.never_writes (Shared.reader f).
Proof.
  intros s objects i. unfold Shared.reader.
  destruct (Shared.deref objects i) as [r|]; [|reflexivity].
  destruct (f s r). reflexivity.
Qed.

Lemma reader_never_throws {Sink : Type}
    (f : Sink -> NodeResponse -> Sink * option Thrown) :
  Spec.sink_never_throws f -> Shared.never_throws (Shared.reader f).
Proof.
  intros Hf s objects i. unfold Shared.reader.
  destruct (Shared.deref objects i) as [r|]; [|reflexivity].
  pose proof (Hf s r) as Hr. destruct (f s r). exact Hr.
Qed.










(** For a sink that only reads what it is handed and does not throw,
    the two accounts of [queryAllNodes] agree on the calls made to the
    sink and on the collection the caller gets. *)
Lemma reader_agrees {num : Type} `{NumberToString num} {Sink : Type}
    (nodes : list VamdcNode) (params : QueryParams num)
    (f : Sink -> NodeResponse -> Sink * option Thrown)
    (probes : nat -> Coordinator.Probe) (s0 : Sink) (schedule : list nat) :
  Spec.sink_never_throws f ->
  schedule ≡ₚ seq 0 (length nodes) ->
  Coordinator.calls (Coordinator.queryAllNodes nodes params f probes s0 schedule)
  = Shared.calls
      (Shared.queryAllNodes nodes params (Shared.reader f) probes s0 schedule)
  /\ exists rs,
       Coordinator.all
         (Coordinator.queryAllNodes nodes params f probes s0 schedule)
       = Coordinator.Fulfilled rs
       /\ Shared.collection
            (Shared.queryAllNodes nodes params (Shared.reader f) probes s0
               schedule)
          = Some rs.
Proof.
  intros Hf Hperm.
  destruct (schedule_facts nodes schedule Hperm) as [Hnd Hin].
  destruct (run_complete nodes params f probes s0 Hf schedule Hperm)
    as (Hall & Hcalls & _).
  destruct (shared_run_calls nodes params (Shared.reader f) probes s0 schedule
              Hnd (fun i => proj1 (Hin i))) as (_ & _ & Hcalls' & _).
  destruct (shared_complete nodes params (Shared.reader f) probes s0
              (reader_never_throws f Hf) schedule Hperm)
    as (_ & rs & Hrs & _ & Hkeep).
  split; [rewrite Hcalls, Hcalls'; reflexivity|].
  exists rs. split; [|exact Hrs].
  rewrite (Hkeep (reader_never_writes f)). exact Hall.
Qed.

(** X11: with a sink that does not throw, the sink is called for a node
    whose 30 second timer fires before its request settles with the
    status [timeout] and the text [Request timeout]; and when the sink
    does not write to the objects it is handed, the collection the
    caller gets holds that result at the index of the node. *)
Theorem expired_deadline_is_timeout {num : Type} `{NumberToString num}
    {Sink : Type} (nodes : list VamdcNode) (params : QueryParams num)
    (onProgress :
       Sink -> Shared.Store -> nat -> Sink * Shared.Store * option Thrown)
    (probes : nat -> Coordinator.Probe) (s0 : Sink) (schedule : list nat)
    (i : nat) (node : VamdcNode) :
  Shared.never_throws onProgress ->
  schedule ≡ₚ seq 0 (length nodes) ->
  nodes !! i = Some node ->
  Coordinator.timer_fires (probes i) = true ->
  Spec.timeout_response node
  ∈ Shared.calls
      (Shared.queryAllNodes nodes params onProgress probes s0 schedule)
  /\ (Shared.never_writes onProgress ->
      exists rs,
        Shared.collection
          (Shared.queryAllNodes nodes params onProgress probes s0 schedule)
        = Some rs
        /\ rs !! i = Some (Spec.timeout_response node)).
Proof.
  intros Hquiet Hperm Hnode Hfires.
  destruct (schedule_facts nodes schedule Hperm) as [Hnd Hin].
  assert (Hres : Spec.probe_result params node (probes i)
                 = Spec.timeout_response node).
  { unfold Spec.probe_result, Coordinator.signal_of. rewrite Hfires.
    reflexivity. }
  split.
  - destruct (shared_run_calls nodes params onProgress probes s0 schedule Hnd
                (fun j => proj1 (Hin j))) as (_ & _ & -> & _).
    apply list_elem_of_omap. exists i. split.
    + apply Hin. apply lookup_lt_Some in Hnode. exact Hnode.
    + unfold Spec.result_at. rewrite Hnode. simpl. rewrite Hres. reflexivity.
  - intros Hw.
    destruct (shared_complete nodes params onProgress probes s0 Hquiet
                schedule Hperm) as (_ & rs & Hrs & _ & Hkeep).
    exists rs. split; [exact Hrs|].
    rewrite (Hkeep Hw). unfold Spec.results.
    rewrite list_lookup_imap, Hnode. simpl. rewrite Hres. reflexivity.
Qed.

Lemma expired_deadline_is_timeout_witness :
  Spec.timeout_response (mkNode "c" "C" "https://c.org/tap/")
  ∈ Shared.calls
      (Shared.queryAllNodes Sample.nodes3 Sample.params
         (Shared.reader Sample.counter) Sample.probes 0 [2; 0; 1])
  /\ exists rs,
       Shared.collection
         (Shared.queryAllNodes Sample.nodes3 Sample.params
            (Shared.reader Sample.counter) Sample.probes 0 [2; 0; 1])
       = Some rs
       /\ rs !! 2
          = Some (Spec.timeout_response (mkNode "c" "C" "https://c.org/tap/")).
Proof.
  destruct (expired_deadline_is_timeout Sample.nodes3 Sample.params
              (Shared.reader Sample.counter) Sample.probes 0 [2; 0; 1] 2
              (mkNode "c" "C" "https://c.org/tap/")
              (reader_never_throws _ counter_never_throws) schedule_201
              eq_refl eq_refl) as [Hcall Hkept].
  split; [exact Hcall|]. apply Hkept, reader_never_writes.
Defined.

(** C2, as worded: every cancellation before settling would give
    [timeout].  A signal made by [AbortSignal.timeout], whose reason is
    named [TimeoutError], gives status [error]. *)
Lemma cancellation_with_other_reason_is_error :
  ~ Worded.every_cancellation_is_timeout.
Proof.
  intros Hclaim.
  specialize (Hclaim (fun _ => Throw ThrownOther)
                (mkNode "a" "A" "https://a.org/tap/") Sample.params
                Worded.timeout_error).
  vm_compute in Hclaim. discriminate Hclaim.
Qed.
